(** * CTableFluid: the interpolation-table fluid model of SU2

    A shallow embedding of [SU2_CFD/src/fluid/CTableFluid.cpp]:
    the saturation curve [esat_rho], the bilinear table lookup
    [interpolateTable], the secant solver [rootFunc], the property
    accessors built on them and the state setters.

    Numbers.  [su2double] is modelled as an exact rational extended
    with the three special values of IEEE arithmetic (the two
    infinities and NaN).  Finite values are computed without rounding,
    a decimal literal such as [1.01] or [1e-9] is the rational it
    denotes, and the sign of zero is not represented: a zero divisor
    counts as [+0], which is what a difference [y - y] of equal finite
    values is in round-to-nearest.  [int] is modelled as [Z]: the
    indices stay far from its bounds, and the conversion of a
    [su2double] outside the [int] range is left to a parameter. *)

From Stdlib Require Import ZArith QArith Qcanon Qcabs List Bool Lia.
From Stdlib Require Import Qround.
Import ListNotations.

(** ** The number type *)

Module Su2.

Inductive su2double : Type :=
| Fin (q : Qc)
| PInf
| NInf
| NaN.

Definition is_finite (a : su2double) : bool :=
  match a with Fin _ => true | _ => false end.

Definition sgn (q : Qc) : comparison := (q ?= 0)%Qc.

(** The infinity with the sign [c]; [Eq] is the sign of [0 * inf] and
    of [0 / 0], which are NaN. *)
Definition inf_of (c : comparison) : su2double :=
  match c with Gt => PInf | Lt => NInf | Eq => NaN end.

Definition neg (a : su2double) : su2double :=
  match a with
  | Fin q => Fin (- q)
  | PInf => NInf
  | NInf => PInf
  | NaN => NaN
  end.

Definition add (a b : su2double) : su2double :=
  match a, b with
  | Fin p, Fin q => Fin (p + q)
  | NaN, _ | _, NaN => NaN
  | PInf, NInf | NInf, PInf => NaN
  | PInf, _ | _, PInf => PInf
  | NInf, _ | _, NInf => NInf
  end.

Definition sub (a b : su2double) : su2double := add a (neg b).

Definition mul (a b : su2double) : su2double :=
  match a, b with
  | Fin p, Fin q => Fin (p * q)
  | NaN, _ | _, NaN => NaN
  | Fin p, PInf | PInf, Fin p => inf_of (sgn p)
  | Fin p, NInf | NInf, Fin p => inf_of (CompOpp (sgn p))
  | PInf, PInf | NInf, NInf => PInf
  | PInf, NInf | NInf, PInf => NInf
  end.

Definition div (a b : su2double) : su2double :=
  match a, b with
  | NaN, _ | _, NaN => NaN
  | Fin p, Fin q => if Qc_eq_bool q 0 then inf_of (sgn p) else Fin (p / q)
  | Fin _, PInf | Fin _, NInf => Fin 0
  | PInf, Fin q => match sgn q with Lt => NInf | _ => PInf end
  | NInf, Fin q => match sgn q with Lt => PInf | _ => NInf end
  | PInf, PInf | PInf, NInf | NInf, PInf | NInf, NInf => NaN
  end.

Definition abs (a : su2double) : su2double :=
  match a with
  | Fin q => Fin (Qcabs q)
  | PInf | NInf => PInf
  | NaN => NaN
  end.

(** [a > b]; every comparison with NaN is false. *)
Definition gtb (a b : su2double) : bool :=
  match a, b with
  | NaN, _ | _, NaN => false
  | Fin p, Fin q => match (p ?= q)%Qc with Gt => true | _ => false end
  | _, PInf => false
  | PInf, _ => true
  | NInf, _ => false
  | Fin _, NInf => true
  end.

(** [a <= b]; every comparison with NaN is false. *)
Definition leb (a b : su2double) : bool :=
  match a, b with
  | NaN, _ | _, NaN => false
  | Fin p, Fin q => match (p ?= q)%Qc with Gt => false | _ => true end
  | _, PInf => true
  | PInf, _ => false
  | NInf, _ => true
  | Fin _, NInf => false
  end.

Definition eqb (a b : su2double) : bool :=
  match a, b with
  | Fin p, Fin q => Qc_eq_bool p q
  | PInf, PInf | NInf, NInf => true
  | _, _ => false
  end.

(** *** [int] and the conversions *)

Definition INT_MAX : Z := 2147483647.
Definition INT_MIN : Z := -2147483648.

Definition in_int (k : Z) : bool := ((INT_MIN <=? k) && (k <=? INT_MAX))%Z.

(** Rounding toward zero, the rule of a C++ floating-to-integer cast. *)
Definition trunc (q : Qc) : Z := Z.quot (Qnum q) (Zpos (Qden q)).

(** [(int) a].  The cast is undefined when the truncated value is not
    representable (and for the special values); [ub] stands for
    whatever it then yields. *)
Definition to_int (ub : su2double -> Z) (a : su2double) : Z :=
  match a with
  | Fin q => if in_int (trunc q) then trunc q else ub a
  | _ => ub a
  end.

(** [(su2double) k] *)
Definition of_int (k : Z) : su2double := Fin (Q2Qc (inject_Z k)).

Definition lit (n : Z) (d : positive) : su2double := Fin (Q2Qc (n # d)).

End Su2.

Export Su2.

Declare Scope su2_scope.
Delimit Scope su2_scope with D.
Bind Scope su2_scope with su2double.
Infix "+" := add : su2_scope.
Infix "-" := sub : su2_scope.
Infix "*" := mul : su2_scope.
Infix "/" := div : su2_scope.

Local Open Scope Z_scope.

(** ** Arrays *)

(** A read [z[k]] at a computed index: [None] is a read outside the
    array. *)
Definition read (z : list su2double) (k : Z) : option su2double :=
  if k <? 0 then None else nth_error z (Z.to_nat k).

(** A read at a constant index of a fixed-size member array
    ([x[0]], [coefesat[3]], ...). *)
Definition elt (x : list su2double) (k : nat) : su2double := nth k x NaN.

Definition obind {A B : Type} (m : option A) (k : A -> option B) : option B :=
  match m with Some a => k a | None => None end.

Notation "v <- m ;; k" := (obind m (fun v => k))
  (at level 61, m at next level, right associativity).

(** ** The members declared in [CTableFluid.hpp]

    The header is not part of the sources at hand.  The table
    dimensions, the axis bounds, the saturation coefficients and the
    eleven property tables are gathered in one record, in the names the
    code uses for them. *)

Record TableData : Type := {
  Nx : Z;
  Ny : Z;
  coefesat : list su2double;
  Rho : list su2double;
  De : list su2double;
  P_rhoDe : list su2double;
  T_rhoDe : list su2double;
  h_rhoDe : list su2double;
  s_rhoDe : list su2double;
  cv_rhoDe : list su2double;
  cp_rhoDe : list su2double;
  a2_rhoDe : list su2double;
  dPdrho_e_rhoDe : list su2double;
  dPde_rho_rhoDe : list su2double;
  dTdrho_e_rhoDe : list su2double;
  dTde_rho_rhoDe : list su2double
}.

(** The object: the flag set by the constructor and the fluid-state
    fields inherited from [CFluidModel] that this file assigns. *)

Record CTableFluid : Type := {
  ComputeEntropy : bool;
  Density : su2double;
  StaticEnergy : su2double;
  Pressure : su2double;
  Temperature : su2double;
  Entropy : su2double;
  SoundSpeed2 : su2double;
  dPdrho_e : su2double;
  dPde_rho : su2double;
  dTdrho_e : su2double;
  dTde_rho : su2double;
  Cv : su2double;
  Cp : su2double
}.

(** Field assignments. *)

Definition set_ComputeEntropy (v : bool) (o : CTableFluid) : CTableFluid :=
  {| ComputeEntropy := v; Density := Density o; StaticEnergy := StaticEnergy o;
     Pressure := Pressure o; Temperature := Temperature o; Entropy := Entropy o;
     SoundSpeed2 := SoundSpeed2 o; dPdrho_e := dPdrho_e o; dPde_rho := dPde_rho o;
     dTdrho_e := dTdrho_e o; dTde_rho := dTde_rho o; Cv := Cv o; Cp := Cp o |}.

Definition set_Density (v : su2double) (o : CTableFluid) : CTableFluid :=
  {| ComputeEntropy := ComputeEntropy o; Density := v; StaticEnergy := StaticEnergy o;
     Pressure := Pressure o; Temperature := Temperature o; Entropy := Entropy o;
     SoundSpeed2 := SoundSpeed2 o; dPdrho_e := dPdrho_e o; dPde_rho := dPde_rho o;
     dTdrho_e := dTdrho_e o; dTde_rho := dTde_rho o; Cv := Cv o; Cp := Cp o |}.

Definition set_StaticEnergy (v : su2double) (o : CTableFluid) : CTableFluid :=
  {| ComputeEntropy := ComputeEntropy o; Density := Density o; StaticEnergy := v;
     Pressure := Pressure o; Temperature := Temperature o; Entropy := Entropy o;
     SoundSpeed2 := SoundSpeed2 o; dPdrho_e := dPdrho_e o; dPde_rho := dPde_rho o;
     dTdrho_e := dTdrho_e o; dTde_rho := dTde_rho o; Cv := Cv o; Cp := Cp o |}.

Definition set_Pressure (v : su2double) (o : CTableFluid) : CTableFluid :=
  {| ComputeEntropy := ComputeEntropy o; Density := Density o; StaticEnergy := StaticEnergy o;
     Pressure := v; Temperature := Temperature o; Entropy := Entropy o;
     SoundSpeed2 := SoundSpeed2 o; dPdrho_e := dPdrho_e o; dPde_rho := dPde_rho o;
     dTdrho_e := dTdrho_e o; dTde_rho := dTde_rho o; Cv := Cv o; Cp := Cp o |}.

Definition set_Temperature (v : su2double) (o : CTableFluid) : CTableFluid :=
  {| ComputeEntropy := ComputeEntropy o; Density := Density o; StaticEnergy := StaticEnergy o;
     Pressure := Pressure o; Temperature := v; Entropy := Entropy o;
     SoundSpeed2 := SoundSpeed2 o; dPdrho_e := dPdrho_e o; dPde_rho := dPde_rho o;
     dTdrho_e := dTdrho_e o; dTde_rho := dTde_rho o; Cv := Cv o; Cp := Cp o |}.

Definition set_Entropy (v : su2double) (o : CTableFluid) : CTableFluid :=
  {| ComputeEntropy := ComputeEntropy o; Density := Density o; StaticEnergy := StaticEnergy o;
     Pressure := Pressure o; Temperature := Temperature o; Entropy := v;
     SoundSpeed2 := SoundSpeed2 o; dPdrho_e := dPdrho_e o; dPde_rho := dPde_rho o;
     dTdrho_e := dTdrho_e o; dTde_rho := dTde_rho o; Cv := Cv o; Cp := Cp o |}.

Definition set_SoundSpeed2 (v : su2double) (o : CTableFluid) : CTableFluid :=
  {| ComputeEntropy := ComputeEntropy o; Density := Density o; StaticEnergy := StaticEnergy o;
     Pressure := Pressure o; Temperature := Temperature o; Entropy := Entropy o;
     SoundSpeed2 := v; dPdrho_e := dPdrho_e o; dPde_rho := dPde_rho o;
     dTdrho_e := dTdrho_e o; dTde_rho := dTde_rho o; Cv := Cv o; Cp := Cp o |}.

Definition set_dPdrho_e (v : su2double) (o : CTableFluid) : CTableFluid :=
  {| ComputeEntropy := ComputeEntropy o; Density := Density o; StaticEnergy := StaticEnergy o;
     Pressure := Pressure o; Temperature := Temperature o; Entropy := Entropy o;
     SoundSpeed2 := SoundSpeed2 o; dPdrho_e := v; dPde_rho := dPde_rho o;
     dTdrho_e := dTdrho_e o; dTde_rho := dTde_rho o; Cv := Cv o; Cp := Cp o |}.

Definition set_dPde_rho (v : su2double) (o : CTableFluid) : CTableFluid :=
  {| ComputeEntropy := ComputeEntropy o; Density := Density o; StaticEnergy := StaticEnergy o;
     Pressure := Pressure o; Temperature := Temperature o; Entropy := Entropy o;
     SoundSpeed2 := SoundSpeed2 o; dPdrho_e := dPdrho_e o; dPde_rho := v;
     dTdrho_e := dTdrho_e o; dTde_rho := dTde_rho o; Cv := Cv o; Cp := Cp o |}.

Definition set_dTdrho_e (v : su2double) (o : CTableFluid) : CTableFluid :=
  {| ComputeEntropy := ComputeEntropy o; Density := Density o; StaticEnergy := StaticEnergy o;
     Pressure := Pressure o; Temperature := Temperature o; Entropy := Entropy o;
     SoundSpeed2 := SoundSpeed2 o; dPdrho_e := dPdrho_e o; dPde_rho := dPde_rho o;
     dTdrho_e := v; dTde_rho := dTde_rho o; Cv := Cv o; Cp := Cp o |}.

Definition set_dTde_rho (v : su2double) (o : CTableFluid) : CTableFluid :=
  {| ComputeEntropy := ComputeEntropy o; Density := Density o; StaticEnergy := StaticEnergy o;
     Pressure := Pressure o; Temperature := Temperature o; Entropy := Entropy o;
     SoundSpeed2 := SoundSpeed2 o; dPdrho_e := dPdrho_e o; dPde_rho := dPde_rho o;
     dTdrho_e := dTdrho_e o; dTde_rho := v; Cv := Cv o; Cp := Cp o |}.

Definition set_Cv (v : su2double) (o : CTableFluid) : CTableFluid :=
  {| ComputeEntropy := ComputeEntropy o; Density := Density o; StaticEnergy := StaticEnergy o;
     Pressure := Pressure o; Temperature := Temperature o; Entropy := Entropy o;
     SoundSpeed2 := SoundSpeed2 o; dPdrho_e := dPdrho_e o; dPde_rho := dPde_rho o;
     dTdrho_e := dTdrho_e o; dTde_rho := dTde_rho o; Cv := v; Cp := Cp o |}.

Definition set_Cp (v : su2double) (o : CTableFluid) : CTableFluid :=
  {| ComputeEntropy := ComputeEntropy o; Density := Density o; StaticEnergy := StaticEnergy o;
     Pressure := Pressure o; Temperature := Temperature o; Entropy := Entropy o;
     SoundSpeed2 := SoundSpeed2 o; dPdrho_e := dPdrho_e o; dPde_rho := dPde_rho o;
     dTdrho_e := dTdrho_e o; dTde_rho := dTde_rho o; Cv := Cv o; Cp := v |}.

(** ** The secant solver *)

(** The local variables of [rootFunc] at the head of its loop. *)
Record secant : Type := {
  sec_n : Z;
  sec_x : su2double;
  sec_y : su2double;
  sec_x0 : su2double
}.

Section RootFunc.

Variable func : su2double -> su2double.

(** [int n = 0; x = x0; y = func(x); x0 = 1.01*x0;] *)
Definition rootFunc_init (x0 : su2double) : secant :=
  {| sec_n := 0; sec_x := x0; sec_y := func x0; sec_x0 := (lit 101 100 * x0)%D |}.

(** [abs(y) > 1e-9*x0], the first conjunct of the loop condition. *)
Definition rootFunc_tol (s : secant) : bool :=
  gtb (abs (sec_y s)) (lit 1 1000000000 * sec_x0 s)%D.

(** [abs(y)>1e-9*x0 && n<20] *)
Definition rootFunc_cond (s : secant) : bool :=
  rootFunc_tol s && (sec_n s <? 20).

(** The loop body. *)
Definition rootFunc_body (s : secant) : secant :=
  let y0 := func (sec_x0 s) in
  let dy := (sec_y s - y0)%D in
  let dx := (sec_x s - sec_x0 s)%D in
  {| sec_n := sec_n s + 1;
     sec_x := sec_x0 s;
     sec_y := y0;
     sec_x0 := (sec_x0 s - y0 * dx / dy)%D |}.

(** The [while] loop, with [fuel] bounding the number of times the body
    may run; [None] is a loop still running when the fuel is spent. *)
Fixpoint rootFunc_while (fuel : nat) (s : secant) : option secant :=
  if rootFunc_cond s then
    match fuel with
    | O => None
    | S k => rootFunc_while k (rootFunc_body s)
    end
  else Some s.

(** The state at the head of the loop after [k] rounds of the body. *)
Fixpoint rootFunc_iter (k : nat) (s : secant) : secant :=
  match k with
  | O => s
  | S k' => rootFunc_iter k' (rootFunc_body s)
  end.

End RootFunc.

(** [rootFunc(x0, func)]: the loop is run with fuel for twenty rounds,
    which [rootFunc_while_20] below shows to be enough for every
    argument; the [None] branch is never taken. *)
Definition rootFunc (x0 : su2double) (func : su2double -> su2double)
  : su2double :=
  match rootFunc_while func 20 (rootFunc_init func x0) with
  | Some s => sec_x s
  | None => NaN
  end.

(** ** The class *)

(** [SU2_TYPE::GetValue]: the value of a [su2double], which is the
    number itself when [su2double] is [double]. *)
Definition GetValue (a : su2double) : su2double := a.

(** Modelled from the spec: the constants [ONE2] and [ONE3] are
    declared outside [CTableFluid.cpp]; the saturation formula of the
    spec has a square root and a cube root of the density where the
    code raises it to these exponents, so they are 1/2 and 1/3. *)
Definition ONE2 : su2double := lit 1 2.
Definition ONE3 : su2double := lit 1 3.

Section Class.

(** [pow] of the C++ library, and the outcome of an undefined
    [(int)] cast. *)
Variable pow : su2double -> su2double -> su2double.
Variable ub : su2double -> Z.

Variable tab : TableData.

(** saturation energy *)
Definition esat_rho (rho : su2double) : su2double :=
  (elt (coefesat tab) 0 + elt (coefesat tab) 1 * rho
   + elt (coefesat tab) 2 * pow rho ONE2
   + elt (coefesat tab) 3 * pow rho ONE3)%D.

(** fractional indices assuming equal spacing *)
Definition frac_index (xi : su2double) (x : list su2double) (N : Z) : su2double :=
  ((xi - elt x 0) / (elt x 1 - elt x 0) * of_int (N - 1))%D.

(** bounded left index: [min(max(0,(int) GetValue(ix)), N-2)] *)
Definition left_index (ix : su2double) (N : Z) : Z :=
  Z.min (Z.max 0 (to_int ub (GetValue ix))) (N - 2).

(** interpolation, every read of [z] checked against its bounds *)
Definition interpolateTable_reads (xi yi : su2double) (x y z : list su2double)
  : option su2double :=
  let ix := frac_index xi x (Nx tab) in
  let iy := frac_index yi y (Ny tab) in
  let ixl := left_index ix (Nx tab) in
  let ixr := ixl + 1 in
  let iyl := left_index iy (Ny tab) in
  let iyr := iyl + 1 in
  zll <- read z (ixl * Ny tab + iyl) ;;
  zlr <- read z (ixl * Ny tab + iyr) ;;
  zrl <- read z (ixr * Ny tab + iyl) ;;
  zrr <- read z (ixr * Ny tab + iyr) ;;
  let zil := (zll + (iy - of_int iyl) * (zlr - zll))%D in
  let zir := (zrl + (iy - of_int iyl) * (zrr - zrl))%D in
  Some (zil + (ix - of_int ixl) * (zir - zil))%D.

(** The indices of [z] that [interpolateTable] reads, in the order of
    the four corners. *)
Definition interpolateTable_indices (xi yi : su2double) (x y : list su2double)
  : list Z :=
  let ixl := left_index (frac_index xi x (Nx tab)) (Nx tab) in
  let iyl := left_index (frac_index yi y (Ny tab)) (Ny tab) in
  [ixl * Ny tab + iyl; ixl * Ny tab + (iyl + 1);
   (ixl + 1) * Ny tab + iyl; (ixl + 1) * Ny tab + (iyl + 1)].

(** [interpolateTable] as the accessors use it, a plain number: a read
    outside [z], which the size of the table rules out
    ([interpolateTable_in_bounds]), would yield NaN. *)
Definition interpolateTable (xi yi : su2double) (x y z : list su2double)
  : su2double :=
  match interpolateTable_reads xi yi x y z with
  | Some v => v
  | None => NaN
  end.

(** *** state variables from interpolation of rho-e table *)

Definition P_rhoe (rhoi ei : su2double) : su2double :=
  let Dei := (ei - esat_rho rhoi)%D in
  interpolateTable rhoi Dei (Rho tab) (De tab) (P_rhoDe tab).

Definition T_rhoe (rhoi ei : su2double) : su2double :=
  let Dei := (ei - esat_rho rhoi)%D in
  interpolateTable rhoi Dei (Rho tab) (De tab) (T_rhoDe tab).

Definition h_rhoe (rhoi ei : su2double) : su2double :=
  let Dei := (ei - esat_rho rhoi)%D in
  interpolateTable rhoi Dei (Rho tab) (De tab) (h_rhoDe tab).

Definition s_rhoe (rhoi ei : su2double) : su2double :=
  let Dei := (ei - esat_rho rhoi)%D in
  interpolateTable rhoi Dei (Rho tab) (De tab) (s_rhoDe tab).

Definition cv_rhoe (rhoi ei : su2double) : su2double :=
  let Dei := (ei - esat_rho rhoi)%D in
  interpolateTable rhoi Dei (Rho tab) (De tab) (cv_rhoDe tab).

Definition cp_rhoe (rhoi ei : su2double) : su2double :=
  let Dei := (ei - esat_rho rhoi)%D in
  interpolateTable rhoi Dei (Rho tab) (De tab) (cp_rhoDe tab).

Definition a2_rhoe (rhoi ei : su2double) : su2double :=
  let Dei := (ei - esat_rho rhoi)%D in
  interpolateTable rhoi Dei (Rho tab) (De tab) (a2_rhoDe tab).

Definition dPdrho_e_rhoe (rhoi ei : su2double) : su2double :=
  let Dei := (ei - esat_rho rhoi)%D in
  interpolateTable rhoi Dei (Rho tab) (De tab) (dPdrho_e_rhoDe tab).

Definition dPde_rho_rhoe (rhoi ei : su2double) : su2double :=
  let Dei := (ei - esat_rho rhoi)%D in
  interpolateTable rhoi Dei (Rho tab) (De tab) (dPde_rho_rhoDe tab).

Definition dTdrho_e_rhoe (rhoi ei : su2double) : su2double :=
  let Dei := (ei - esat_rho rhoi)%D in
  interpolateTable rhoi Dei (Rho tab) (De tab) (dTdrho_e_rhoDe tab).

Definition dTde_rho_rhoe (rhoi ei : su2double) : su2double :=
  let Dei := (ei - esat_rho rhoi)%D in
  interpolateTable rhoi Dei (Rho tab) (De tab) (dTde_rho_rhoDe tab).

(** *** state variables from root finding of interpolation of rho-e table *)

Definition e_rhoP (rhoi Pi : su2double) : su2double :=
  let ei0 := (esat_rho rhoi + elt (De tab) 0)%D in
  rootFunc ei0 (fun x => (P_rhoe rhoi x - Pi)%D).

Definition e_rhoT (rhoi Ti : su2double) : su2double :=
  let ei0 := (esat_rho rhoi + elt (De tab) 0)%D in
  rootFunc ei0 (fun x => (T_rhoe rhoi x - Ti)%D).

Definition e_rhoh (rhoi hi : su2double) : su2double :=
  let ei0 := (esat_rho rhoi + elt (De tab) 0)%D in
  rootFunc ei0 (fun x => (h_rhoe rhoi x - hi)%D).

(** *** state variables from root finding of root finding of
    interpolation of rho-e table *)

Definition rho_PT (Pi Ti : su2double) : su2double :=
  let rhoi0 := elt (Rho tab) 0 in
  rootFunc rhoi0 (fun x => (T_rhoe x (e_rhoP x Pi) - Ti)%D).

Definition rho_Ps (Pi si : su2double) : su2double :=
  let rhoi0 := elt (Rho tab) 0 in
  rootFunc rhoi0 (fun x => (s_rhoe x (e_rhoP x Pi) - si)%D).

Definition rho_hs (hi si : su2double) : su2double :=
  let rhoi0 := elt (Rho tab) 0 in
  rootFunc rhoi0 (fun x => (s_rhoe x (e_rhoh x hi) - si)%D).

(** *** the constructor

    [base] is the object as the constructor of [CFluidModel] leaves
    it. *)
Definition CTableFluid_new (base : CTableFluid) (CompEntropy : bool) : CTableFluid :=
  set_ComputeEntropy CompEntropy base.

(** *** cheap set state call *)

Definition SetTDState_rhoe (rho e : su2double) (o : CTableFluid) : CTableFluid :=
  let o := set_Density rho o in
  let o := set_StaticEnergy e o in
  let o := set_Pressure (P_rhoe rho e) o in
  let o := set_Temperature (T_rhoe rho e) o in
  let o := set_SoundSpeed2 (a2_rhoe rho e) o in
  let o := set_dPdrho_e (dPdrho_e_rhoe rho e) o in
  let o := set_dPde_rho (dPde_rho_rhoe rho e) o in
  let o := set_dTdrho_e (dTdrho_e_rhoe rho e) o in
  let o := set_dTde_rho (dTde_rho_rhoe rho e) o in
  let o := set_Cv (cv_rhoe rho e) o in
  let o := set_Cp (cp_rhoe rho e) o in
  if ComputeEntropy o then set_Entropy (s_rhoe rho e) o else o.

(** *** not so cheap set state calls *)

Definition SetEnergy_Prho (P rho : su2double) (o : CTableFluid) : CTableFluid :=
  set_StaticEnergy (e_rhoP rho P) o.

Definition SetTDState_Prho (P rho : su2double) (o : CTableFluid) : CTableFluid :=
  SetTDState_rhoe rho (e_rhoP rho P) o.

Definition SetTDState_rhoT (rho T : su2double) (o : CTableFluid) : CTableFluid :=
  SetTDState_rhoe rho (e_rhoT rho T) o.

Definition SetTDState_rhoh (rho h : su2double) (o : CTableFluid) : CTableFluid :=
  SetTDState_rhoe rho (e_rhoh rho h) o.

(** *** expensive set state calls *)

Definition SetTDState_PT (P T : su2double) (o : CTableFluid) : CTableFluid :=
  SetTDState_Prho P (rho_PT P T) o.

Definition SetTDState_Ps (P s : su2double) (o : CTableFluid) : CTableFluid :=
  SetTDState_Prho P (rho_Ps P s) o.

Definition SetTDState_hs (h s : su2double) (o : CTableFluid) : CTableFluid :=
  SetTDState_rhoh (rho_hs h s) h o.

End Class.

(** ** The statements of the spec that are compared with the code *)

(** The convergence test as the spec words it: the residual at the
    current point against [1e-9] times the seed passed in. *)
Definition seed_tolerance_met (func : su2double -> su2double)
  (seed : su2double) (s : secant) : bool :=
  leb (abs (func (sec_x s))) (lit 1 1000000000 * seed)%D.

(** The secant iteration stops as converged exactly when the residual
    is within [1e-9] times the original seed: at every head of the loop
    that the iteration reaches, the tolerance test is false exactly
    then. *)
Definition stops_on_seed_tolerance : Prop :=
  forall (func : su2double -> su2double) (seed : su2double) (k : nat),
    (forall j : nat, (j < k)%nat ->
       rootFunc_cond (rootFunc_iter func j (rootFunc_init func seed)) = true) ->
    (rootFunc_tol (rootFunc_iter func k (rootFunc_init func seed)) = false
     <-> seed_tolerance_met func seed
           (rootFunc_iter func k (rootFunc_init func seed)) = true).

(** The coordinate of the [i]-th of the [N] equally spaced nodes of an
    axis with the bounds [x]. *)
Definition node_coord (x : list su2double) (N i : Z) : su2double :=
  (elt x 0 + of_int i * (elt x 1 - elt x 0) / of_int (N - 1))%D.

(** An axis: two finite bounds, strictly increasing. *)
Definition axis_ok (x : list su2double) : bool :=
  match x with
  | [Fin a; Fin b] => gtb (Fin b) (Fin a)
  | _ => false
  end.

(** A property table: [Nx*Ny] finite entries. *)
Definition entries_ok (tab : TableData) (z : list su2double) : bool :=
  (Z.of_nat (length z) =? Nx tab * Ny tab) && forallb is_finite z.

(** The data model of the spec: at least two nodes on each axis,
    strictly increasing axes, four finite saturation coefficients and
    eleven tables of [Nx*Ny] finite entries each. *)
Definition table_ok (tab : TableData) : bool :=
  (2 <=? Nx tab) && (2 <=? Ny tab) && (Nx tab * Ny tab <=? INT_MAX)
  && axis_ok (Rho tab) && axis_ok (De tab)
  && (length (coefesat tab) =? 4)%nat && forallb is_finite (coefesat tab)
  && forallb (entries_ok tab)
       [P_rhoDe tab; T_rhoDe tab; h_rhoDe tab; s_rhoDe tab; cv_rhoDe tab;
        cp_rhoDe tab; a2_rhoDe tab; dPdrho_e_rhoDe tab; dPde_rho_rhoDe tab;
        dTdrho_e_rhoDe tab; dTde_rho_rhoDe tab].

(** Round trip, as the spec states it: at a lattice node [(i, j)] of a
    table that meets the data model, with [rho] the density of the node
    and [e] its energy, the pressure [P_rhoe(rho, e)] inverted by
    [e_rhoP] gives back [e] within [1e-9] times the seed of the
    inversion. *)
Definition e_rhoP_recovers_energy
  (pow : su2double -> su2double -> su2double) (ub : su2double -> Z) : Prop :=
  forall (tab : TableData) (i j : Z),
    table_ok tab = true ->
    0 <= i <= Nx tab - 1 -> 0 <= j <= Ny tab - 1 ->
    let rho := node_coord (Rho tab) (Nx tab) i in
    let e := (esat_rho pow tab rho + node_coord (De tab) (Ny tab) j)%D in
    let seed := (esat_rho pow tab rho + elt (De tab) 0)%D in
    leb (abs (e_rhoP pow ub tab rho (P_rhoe pow ub tab rho e) - e))
        (lit 1 1000000000 * seed)%D = true.

(** ** Data for the examples *)

(** [f(x) = 1.5e-9 / x] *)
Definition small_hyperbola (x : su2double) : su2double :=
  (lit 3 2000000000 / x)%D.

(** [f(x) = 1 / x]: the secant iterates are sums of the two before
    them, and the residual never comes near the tolerance. *)
Definition hyperbola (x : su2double) : su2double := (lit 1 1 / x)%D.

(** [f(x) = -1] *)
Definition minus_one (x : su2double) : su2double := lit (-1) 1.

(** [pow] on the base 1, where it is 1 for every exponent; the
    examples raise no other base. *)
Definition pow_base_one (b e : su2double) : su2double :=
  if eqb b (lit 1 1) then lit 1 1 else NaN.

(** An undefined cast yields the smallest [int], as the conversion
    instruction of x86 does. *)
Definition cast_indefinite (a : su2double) : Z := INT_MIN.

(** A table of two densities, 1 and 2, and three energy deviations, 1,
    2 and 3, with [esat(rho) = 1 + rho/2].  Along each density the
    pressure rises and falls again. *)
Definition demo_table : TableData :=
  {| Nx := 2; Ny := 3;
     coefesat := [lit 1 1; lit 1 2; lit 0 1; lit 0 1];
     Rho := [lit 1 1; lit 2 1];
     De := [lit 1 1; lit 3 1];
     P_rhoDe := [lit 2 1; lit 5 1; lit 2 1; lit 3 1; lit 6 1; lit 3 1];
     T_rhoDe := [lit 300 1; lit 310 1; lit 320 1; lit 305 1; lit 315 1; lit 325 1];
     h_rhoDe := [lit 4 1; lit 8 1; lit 7 1; lit 5 1; lit 7 1; lit 9 1];
     s_rhoDe := [lit 1 1; lit 2 1; lit 3 1; lit 1 2; lit 3 2; lit 5 2];
     cv_rhoDe := [lit 7 10; lit 7 10; lit 7 10; lit 7 10; lit 7 10; lit 7 10];
     cp_rhoDe := [lit 1 1; lit 1 1; lit 1 1; lit 1 1; lit 1 1; lit 1 1];
     a2_rhoDe := [lit 100 1; lit 110 1; lit 120 1; lit 90 1; lit 100 1; lit 110 1];
     dPdrho_e_rhoDe := [lit 1 1; lit 1 1; lit 1 1; lit 1 1; lit 1 1; lit 1 1];
     dPde_rho_rhoDe := [lit 3 1; lit 3 1; lit (-3) 1; lit 3 1; lit 3 1; lit (-3) 1];
     dTdrho_e_rhoDe := [lit 5 1; lit 5 1; lit 5 1; lit 5 1; lit 5 1; lit 5 1];
     dTde_rho_rhoDe := [lit 10 1; lit 10 1; lit 10 1; lit 10 1; lit 10 1; lit 10 1] |}.

(** A table on the same axes whose pressure rises with the energy
    along each density, with [esat(rho) = -1], so that the seed of the
    inversions is 0. *)
Definition rising_table : TableData :=
  {| Nx := 2; Ny := 3;
     coefesat := [lit (-1) 1; lit 0 1; lit 0 1; lit 0 1];
     Rho := [lit 1 1; lit 2 1];
     De := [lit 1 1; lit 3 1];
     P_rhoDe := [lit 2 1; lit 5 1; lit 8 1; lit 3 1; lit 6 1; lit 9 1];
     T_rhoDe := T_rhoDe demo_table;
     h_rhoDe := h_rhoDe demo_table;
     s_rhoDe := s_rhoDe demo_table;
     cv_rhoDe := cv_rhoDe demo_table;
     cp_rhoDe := cp_rhoDe demo_table;
     a2_rhoDe := a2_rhoDe demo_table;
     dPdrho_e_rhoDe := dPdrho_e_rhoDe demo_table;
     dPde_rho_rhoDe := [lit 3 1; lit 3 1; lit 3 1; lit 3 1; lit 3 1; lit 3 1];
     dTdrho_e_rhoDe := dTdrho_e_rhoDe demo_table;
     dTde_rho_rhoDe := dTde_rho_rhoDe demo_table |}.

(** An object before any state is set. *)
Definition demo_object (flag : bool) : CTableFluid :=
  {| ComputeEntropy := flag; Density := lit 0 1; StaticEnergy := lit 0 1;
     Pressure := lit 0 1; Temperature := lit 0 1; Entropy := lit 42 1;
     SoundSpeed2 := lit 0 1; dPdrho_e := lit 0 1; dPde_rho := lit 0 1;
     dTdrho_e := lit 0 1; dTde_rho := lit 0 1; Cv := lit 0 1; Cp := lit 0 1 |}.

(** ** Notions for the further properties *)

(** An integer as an exact rational. *)
Definition of_Z (k : Z) : Qc := Q2Qc (inject_Z k).

(** The value at the grid indices [(i, j)] of the function
    [a + b*i + c*j + d*i*j], and the same function at fractional
    indices. *)
Definition bilinear_at (a b c d : Qc) (i j : Qc) : Qc :=
  (a + b * i + c * j + d * i * j)%Qc.

(** The table [z] samples that function at every node. *)
Definition samples_bilinear (tab : TableData) (z : list su2double)
  (a b c d : Qc) : Prop :=
  forall i j : Z,
    0 <= i <= Nx tab - 1 -> 0 <= j <= Ny tab - 1 ->
    read z (i * Ny tab + j) = Some (Fin (bilinear_at a b c d (of_Z i) (of_Z j))).

(** Every entry of [z] is a finite number between [lo] and [hi]. *)
Definition entries_between (lo hi : Qc) (z : list su2double) : Prop :=
  Forall (fun v => exists q : Qc, v = Fin q /\ (lo <= q)%Qc /\ (q <= hi)%Qc) z.

(** The fluid state agrees with the tables: every field that
    [SetTDState_rhoe] takes from a table is the accessor's value at the
    stored density and energy, the entropy when the flag asks for it. *)
Definition state_consistent
  (pow : su2double -> su2double -> su2double) (ub : su2double -> Z)
  (tab : TableData) (o : CTableFluid) : Prop :=
  Pressure o = P_rhoe pow ub tab (Density o) (StaticEnergy o) /\
  Temperature o = T_rhoe pow ub tab (Density o) (StaticEnergy o) /\
  SoundSpeed2 o = a2_rhoe pow ub tab (Density o) (StaticEnergy o) /\
  dPdrho_e o = dPdrho_e_rhoe pow ub tab (Density o) (StaticEnergy o) /\
  dPde_rho o = dPde_rho_rhoe pow ub tab (Density o) (StaticEnergy o) /\
  dTdrho_e o = dTdrho_e_rhoe pow ub tab (Density o) (StaticEnergy o) /\
  dTde_rho o = dTde_rho_rhoe pow ub tab (Density o) (StaticEnergy o) /\
  Cv o = cv_rhoe pow ub tab (Density o) (StaticEnergy o) /\
  Cp o = cp_rhoe pow ub tab (Density o) (StaticEnergy o) /\
  (ComputeEntropy o = true ->
   Entropy o = s_rhoe pow ub tab (Density o) (StaticEnergy o)).

(** [f(x) = x - 5] *)
Definition line_minus_5 (x : su2double) : su2double :=
  (Fin (Q2Qc (1 # 1)) * x + Fin (Q2Qc (-5 # 1)))%D.

(** * Properties *)

(** ** Numbers *)

Lemma gtb_leb_finite (a b : su2double) :
  is_finite a = true -> is_finite b = true -> gtb a b = negb (leb a b).
Proof.
  destruct a as [p| | |], b as [q| | |]; simpl; try discriminate.
  intros _ _. destruct (p ?= q)%Qc; reflexivity.
Qed.

Lemma gtb_NaN_r (a : su2double) : gtb a NaN = false.
Proof. destruct a; reflexivity. Qed.

(** The sum and the difference with a value that is not finite are not
    finite, and neither are its products. *)

Lemma neg_not_finite (a : su2double) :
  is_finite a = false -> is_finite (neg a) = false.
Proof. destruct a; simpl; congruence. Qed.

Lemma add_not_finite_l (a b : su2double) :
  is_finite a = false -> is_finite (a + b)%D = false.
Proof. destruct a, b; simpl; congruence. Qed.

Lemma add_not_finite_r (a b : su2double) :
  is_finite b = false -> is_finite (a + b)%D = false.
Proof. destruct a, b; simpl; congruence. Qed.

Lemma sub_not_finite_l (a b : su2double) :
  is_finite a = false -> is_finite (a - b)%D = false.
Proof. intros H. unfold sub. now apply add_not_finite_l. Qed.

Lemma sub_not_finite_r (a b : su2double) :
  is_finite b = false -> is_finite (a - b)%D = false.
Proof. intros H. unfold sub. now apply add_not_finite_r, neg_not_finite. Qed.

Lemma inf_of_not_finite (c : comparison) : is_finite (inf_of c) = false.
Proof. destruct c; reflexivity. Qed.

Lemma mul_not_finite_l (a b : su2double) :
  is_finite a = false -> is_finite (a * b)%D = false.
Proof.
  destruct a, b; simpl; try congruence; intros _; apply inf_of_not_finite.
Qed.

Lemma mul_not_finite_r (a b : su2double) :
  is_finite b = false -> is_finite (a * b)%D = false.
Proof.
  destruct a, b; simpl; try congruence; intros _; apply inf_of_not_finite.
Qed.

Lemma div_not_finite_l (a b : su2double) :
  is_finite a = false -> is_finite (a / b)%D = false.
Proof.
  destruct a as [p| | |], b as [q| | |]; simpl; try congruence; intros _;
    destruct (sgn q); reflexivity.
Qed.

(** ** The secant solver *)

Section RootFuncFacts.

Variable func : su2double -> su2double.

Lemma rootFunc_iter_S (k : nat) (s : secant) :
  rootFunc_iter func (S k) s = rootFunc_body func (rootFunc_iter func k s).
Proof.
  revert s. induction k as [|k IH]; intros s.
  - reflexivity.
  - change (rootFunc_iter func (S (S k)) s)
      with (rootFunc_iter func (S k) (rootFunc_body func s)).
    rewrite IH. reflexivity.
Qed.

Lemma rootFunc_iter_n (k : nat) (s : secant) :
  sec_n (rootFunc_iter func k s) = sec_n s + Z.of_nat k.
Proof.
  revert s. induction k as [|k IH]; intros s.
  - simpl. lia.
  - simpl rootFunc_iter. rewrite IH. simpl sec_n. lia.
Qed.

(** [y] is the residual at [x] whenever the loop condition is tested. *)
Lemma rootFunc_iter_y (k : nat) (x0 : su2double) :
  sec_y (rootFunc_iter func k (rootFunc_init func x0))
  = func (sec_x (rootFunc_iter func k (rootFunc_init func x0))).
Proof.
  destruct k as [|k].
  - reflexivity.
  - rewrite rootFunc_iter_S. reflexivity.
Qed.

(** The loop, given fuel for the rounds that [n < 20] still allows,
    stops at the first head state where its condition is false. *)
Lemma rootFunc_while_iter (fuel : nat) (s : secant) :
  20 - sec_n s <= Z.of_nat fuel ->
  exists k : nat,
    (k <= fuel)%nat /\
    rootFunc_while func fuel s = Some (rootFunc_iter func k s) /\
    rootFunc_cond (rootFunc_iter func k s) = false /\
    (forall j : nat, (j < k)%nat -> rootFunc_cond (rootFunc_iter func j s) = true).
Proof.
  revert s. induction fuel as [|fuel IH]; intros s Hn.
  - exists O. simpl. destruct (rootFunc_cond s) eqn:C.
    + unfold rootFunc_cond in C. apply andb_true_iff in C as [_ C].
      apply Z.ltb_lt in C. lia.
    + repeat split; auto. intros j Hj. lia.
  - destruct (rootFunc_cond s) eqn:C.
    + destruct (IH (rootFunc_body func s)) as (k & Hk & Hw & Hc & Hb).
      { simpl sec_n. lia. }
      exists (S k). simpl. rewrite C. repeat split; auto.
      * lia.
      * intros [|j] Hj; [exact C|]. apply Hb. lia.
    + exists O. simpl. rewrite C. repeat split; auto.
      * lia.
      * intros j Hj. lia.
Qed.

Lemma rootFunc_while_more (fuel extra : nat) (s r : secant) :
  rootFunc_while func fuel s = Some r ->
  rootFunc_while func (fuel + extra) s = Some r.
Proof.
  revert s. induction fuel as [|fuel IH]; intros s; simpl.
  - destruct (rootFunc_cond s) eqn:C; [discriminate|].
    intros H. destruct extra; simpl; rewrite C; exact H.
  - destruct (rootFunc_cond s); [apply IH | auto].
Qed.

(** Twenty rounds of fuel are enough from the initial state. *)
Lemma rootFunc_while_20 (x0 : su2double) :
  exists k : nat,
    (k <= 20)%nat /\
    rootFunc_while func 20 (rootFunc_init func x0)
    = Some (rootFunc_iter func k (rootFunc_init func x0)) /\
    rootFunc_cond (rootFunc_iter func k (rootFunc_init func x0)) = false /\
    (forall j : nat, (j < k)%nat ->
       rootFunc_cond (rootFunc_iter func j (rootFunc_init func x0)) = true).
Proof. apply rootFunc_while_iter. simpl. lia. Qed.

Lemma rootFunc_cond_true (s : secant) :
  rootFunc_cond s = true -> rootFunc_tol s = true /\ sec_n s < 20.
Proof.
  unfold rootFunc_cond. intros H. apply andb_true_iff in H as [H1 H2].
  apply Z.ltb_lt in H2. auto.
Qed.

Lemma rootFunc_cond_false (s : secant) :
  rootFunc_cond s = false -> sec_n s < 20 -> rootFunc_tol s = false.
Proof.
  unfold rootFunc_cond. intros H Hn. apply andb_false_iff in H as [H|H]; auto.
  apply Z.ltb_ge in H. lia.
Qed.

End RootFuncFacts.

(** C2: for every seed and every residual function, [rootFunc]
    terminates after at most 20 rounds of its loop, whatever the
    residuals are, and returns a number, the last point at which the
    residual was evaluated: the seed when the loop did not run, else the
    trial point [x0] of the round before.  There is no failure outcome:
    any fuel of 20 or more yields the same final state. *)
Theorem rootFunc_terminates (func : su2double -> su2double) (x0 : su2double) :
  exists k : nat,
    (k <= 20)%nat /\
    (forall fuel : nat, (20 <= fuel)%nat ->
       rootFunc_while func fuel (rootFunc_init func x0)
       = Some (rootFunc_iter func k (rootFunc_init func x0))) /\
    sec_n (rootFunc_iter func k (rootFunc_init func x0)) = Z.of_nat k /\
    rootFunc x0 func = sec_x (rootFunc_iter func k (rootFunc_init func x0)) /\
    (k = O -> rootFunc x0 func = x0) /\
    (forall j : nat, k = S j ->
       rootFunc x0 func = sec_x0 (rootFunc_iter func j (rootFunc_init func x0))).
Proof.
  destruct (rootFunc_while_20 func x0) as (k & Hk & Hw & _ & _).
  assert (Hr : rootFunc x0 func
               = sec_x (rootFunc_iter func k (rootFunc_init func x0))).
  { unfold rootFunc. rewrite Hw. reflexivity. }
  exists k. repeat split.
  - exact Hk.
  - intros fuel Hf. replace fuel with (20 + (fuel - 20))%nat by lia.
    apply rootFunc_while_more. exact Hw.
  - rewrite rootFunc_iter_n. simpl. lia.
  - exact Hr.
  - intros ->. exact Hr.
  - intros j ->. rewrite Hr, rootFunc_iter_S. reflexivity.
Qed.

(** A residual that never meets the tolerance: the loop stops at the
    cap, with the tolerance test still true, and the result is a finite
    number. *)
Example rootFunc_cap_hyperbola :
  let s := rootFunc_iter hyperbola 20 (rootFunc_init hyperbola (lit 1 1)) in
  rootFunc_while hyperbola 20 (rootFunc_init hyperbola (lit 1 1)) = Some s /\
  sec_n s = 20 /\
  rootFunc_tol s = true /\
  eqb (rootFunc (lit 1 1) hyperbola) (lit 220273 20) = true.
Proof. vm_compute. repeat split; reflexivity. Qed.

(** C1, counterexample: with the seed 1 and the residual
    [1.5e-9 / x] the loop runs once and then stops on its tolerance
    test at [x = 1.01], where the residual, about [1.485e-9], is above
    [1e-9] times the seed: the test compares with [1e-9 * 2.01], the
    trial point the round has just computed. *)
Lemma rootFunc_tolerance_not_seed : ~ stops_on_seed_tolerance.
Proof.
  intros H.
  specialize (H small_hyperbola (lit 1 1) 1%nat).
  destruct H as [H _].
  - intros j Hj. assert (j = O) by lia. subst j. vm_compute. reflexivity.
  - assert (E : rootFunc_tol
                  (rootFunc_iter small_hyperbola 1
                     (rootFunc_init small_hyperbola (lit 1 1))) = false)
      by (vm_compute; reflexivity).
    specialize (H E). vm_compute in H. discriminate H.
Qed.

(** C1, amended: the loop stops at the first head state where
    [abs(f(x)) > 1e-9 * x0] is false, or at the cap of 20 rounds, and
    [x0] is there the current content of the variable: [1.01] times the
    seed before the first round, after a round the secant point that
    round has computed.  For finite operands the test is false exactly
    when [abs(f(x)) <= 1e-9 * x0]. *)
Theorem rootFunc_stops_on_current_tolerance
  (func : su2double -> su2double) (seed : su2double) :
  exists k : nat,
    (k <= 20)%nat /\
    rootFunc_while func 20 (rootFunc_init func seed)
    = Some (rootFunc_iter func k (rootFunc_init func seed)) /\
    (forall j : nat, (j < k)%nat ->
       let s := rootFunc_iter func j (rootFunc_init func seed) in
       gtb (abs (func (sec_x s))) (lit 1 1000000000 * sec_x0 s)%D = true) /\
    ((k < 20)%nat ->
       let s := rootFunc_iter func k (rootFunc_init func seed) in
       gtb (abs (func (sec_x s))) (lit 1 1000000000 * sec_x0 s)%D = false /\
       (is_finite (func (sec_x s)) = true -> is_finite (sec_x0 s) = true ->
        leb (abs (func (sec_x s))) (lit 1 1000000000 * sec_x0 s)%D = true)) /\
    sec_x0 (rootFunc_init func seed) = (lit 101 100 * seed)%D /\
    (forall j : nat,
       let s := rootFunc_iter func j (rootFunc_init func seed) in
       sec_x0 (rootFunc_iter func (S j) (rootFunc_init func seed))
       = (sec_x0 s
          - func (sec_x0 s) * (sec_x s - sec_x0 s)
            / (func (sec_x s) - func (sec_x0 s)))%D).
Proof.
  destruct (rootFunc_while_20 func seed) as (k & Hk & Hw & Hc & Hb).
  exists k. split; [exact Hk|]. split; [exact Hw|]. split; [|split; [|split]].
  - intros j Hj s. subst s. rewrite <- rootFunc_iter_y.
    apply rootFunc_cond_true. apply Hb. exact Hj.
  - intros Hlt s. subst s.
    set (s := rootFunc_iter func k (rootFunc_init func seed)) in *.
    assert (Ht : rootFunc_tol s = false).
    { apply rootFunc_cond_false; [exact Hc|].
      unfold s. rewrite rootFunc_iter_n. simpl. lia. }
    unfold rootFunc_tol in Ht. unfold s in Ht at 1.
    rewrite rootFunc_iter_y in Ht. fold s in Ht.
    split; [exact Ht|]. intros F1 F2.
    rewrite gtb_leb_finite in Ht.
    + apply negb_false_iff. exact Ht.
    + destruct (func (sec_x s)); simpl in *; congruence.
    + destruct (sec_x0 s); simpl in *; congruence.
  - reflexivity.
  - intros j s. subst s. rewrite rootFunc_iter_S.
    unfold rootFunc_body at 1. simpl sec_x0 at 1.
    rewrite rootFunc_iter_y. reflexivity.
Qed.

(** ** Integers as numbers *)

Lemma this_of_Z (k : Z) : this (Q2Qc (inject_Z k)) = inject_Z k.
Proof.
  change (this (Q2Qc (inject_Z k))) with (Qred (inject_Z k)).
  apply Qred_identity. simpl. apply Z.gcd_1_r.
Qed.

Lemma trunc_of_Z (k : Z) : trunc (Q2Qc (inject_Z k)) = k.
Proof.
  unfold trunc. rewrite this_of_Z. simpl. apply Z.quot_1_r.
Qed.

Lemma to_int_of_int (ub : su2double -> Z) (k : Z) :
  in_int k = true -> to_int ub (of_int k) = k.
Proof.
  intros H. unfold to_int, of_int. rewrite trunc_of_Z, H. reflexivity.
Qed.

Lemma of_Z_sub (a b : Z) :
  (Q2Qc (inject_Z a) - Q2Qc (inject_Z b))%Qc = Q2Qc (inject_Z (a - b)).
Proof.
  apply Qc_is_canon. unfold Qcminus, Qcplus, Qcopp, Q2Qc. cbn [this].
  rewrite !Qred_correct. unfold Z.sub.
  rewrite inject_Z_plus, inject_Z_opp. reflexivity.
Qed.

Lemma of_Z_neq_0 (k : Z) : k <> 0 -> Q2Qc (inject_Z k) <> 0%Qc.
Proof.
  intros H E. apply H. apply (f_equal trunc) in E.
  rewrite trunc_of_Z in E. exact E.
Qed.

Lemma Qc_eq_bool_neq (p q : Qc) : p <> q -> Qc_eq_bool p q = false.
Proof.
  intros H. unfold Qc_eq_bool. destruct (Qc_eq_dec p q); [contradiction|reflexivity].
Qed.

Lemma div_Fin (p q : Qc) : q <> 0%Qc -> (Fin p / Fin q)%D = Fin (p / q)%Qc.
Proof. intros H. simpl. rewrite Qc_eq_bool_neq by exact H. reflexivity. Qed.

Lemma in_int_iff (k : Z) : in_int k = true <-> INT_MIN <= k <= INT_MAX.
Proof.
  unfold in_int. rewrite andb_true_iff, !Z.leb_le. reflexivity.
Qed.

(** ** The table lookup *)

Lemma read_in_bounds (z : list su2double) (k : Z) :
  0 <= k < Z.of_nat (length z) -> exists v, read z k = Some v /\ In v z.
Proof.
  intros [H0 H1]. unfold read.
  destruct (k <? 0) eqn:E; [apply Z.ltb_lt in E; lia|].
  destruct (nth_error z (Z.to_nat k)) as [v|] eqn:R.
  - exists v. split; [reflexivity|]. eapply nth_error_In. exact R.
  - apply nth_error_None in R. lia.
Qed.

Lemma read_finite (z : list su2double) (k : Z) :
  Forall (fun v => is_finite v = true) z ->
  0 <= k < Z.of_nat (length z) -> exists q, read z k = Some (Fin q).
Proof.
  intros F H. destruct (read_in_bounds z k H) as (v & R & I).
  rewrite Forall_forall in F. specialize (F v I).
  destruct v as [q| | |]; try discriminate. exists q. exact R.
Qed.

Section TableFacts.

Variable ub : su2double -> Z.
Variable tab : TableData.

Lemma left_index_bounds (ix : su2double) (N : Z) :
  2 <= N -> 0 <= left_index ub ix N <= N - 2.
Proof. intros H. unfold left_index. lia. Qed.

(** Where the cast is defined, a fractional index at or below 0 is
    clamped to the first cell and one at or above [N-1] to the last. *)
Lemma left_index_low (q : Qc) (N : Z) :
  2 <= N -> in_int (trunc q) = true -> (q <= 0)%Qc ->
  left_index ub (Fin q) N = 0.
Proof.
  intros HN Hi Hq. unfold left_index, GetValue, to_int. rewrite Hi.
  assert (trunc q <= 0); [|lia].
  unfold trunc. unfold Qcle, Qle in Hq. simpl in Hq.
  rewrite Z.mul_1_r in Hq.
  rewrite <- (Z.opp_involutive (Qnum q)), Z.quot_opp_l by discriminate.
  pose proof (Z.quot_pos (- Qnum q) (Z.pos (Qden q))). lia.
Qed.

Lemma left_index_high (q : Qc) (N : Z) :
  2 <= N -> in_int (trunc q) = true -> (Q2Qc (inject_Z (N - 1)) <= q)%Qc ->
  left_index ub (Fin q) N = N - 2.
Proof.
  intros HN Hi Hq. unfold left_index, GetValue, to_int. rewrite Hi.
  assert (N - 1 <= trunc q); [|lia].
  unfold trunc. unfold Qcle in Hq. rewrite this_of_Z in Hq.
  unfold Qle in Hq. simpl in Hq. rewrite Z.mul_1_r in Hq.
  apply Z.quot_le_lower_bound; lia.
Qed.

(** C3: with at least two nodes on each axis and a table [z] of
    [Nx*Ny] entries (a size that an [int] holds), for every query point
    [(xi, yi)], inside the grid or not, even one that is not finite, and
    whatever an undefined cast yields: the left indices are clamped to
    [0..Nx-2] and [0..Ny-2], the four indices read lie in
    [0..Nx*Ny-1], every read succeeds, and the result is the bilinear
    expression on the clamped cell, extended linearly outside it; there
    is no failure outcome.  Below the grid the cell is the first and
    above it the last, where the cast is defined. *)
Theorem interpolateTable_in_bounds (xi yi : su2double) (x y z : list su2double) :
  2 <= Nx tab -> 2 <= Ny tab -> Nx tab * Ny tab <= INT_MAX ->
  Z.of_nat (length z) = Nx tab * Ny tab ->
  let ix := frac_index xi x (Nx tab) in
  let iy := frac_index yi y (Ny tab) in
  let ixl := left_index ub ix (Nx tab) in
  let iyl := left_index ub iy (Ny tab) in
  0 <= ixl <= Nx tab - 2 /\
  0 <= iyl <= Ny tab - 2 /\
  Forall (fun k => 0 <= k <= Nx tab * Ny tab - 1 /\ in_int k = true)
    (interpolateTable_indices ub tab xi yi x y) /\
  (exists zll zlr zrl zrr : su2double,
     read z (ixl * Ny tab + iyl) = Some zll /\
     read z (ixl * Ny tab + (iyl + 1)) = Some zlr /\
     read z ((ixl + 1) * Ny tab + iyl) = Some zrl /\
     read z ((ixl + 1) * Ny tab + (iyl + 1)) = Some zrr /\
     let zil := (zll + (iy - of_int iyl) * (zlr - zll))%D in
     let zir := (zrl + (iy - of_int iyl) * (zrr - zrl))%D in
     interpolateTable_reads ub tab xi yi x y z
     = Some (zil + (ix - of_int ixl) * (zir - zil))%D /\
     interpolateTable ub tab xi yi x y z
     = (zil + (ix - of_int ixl) * (zir - zil))%D) /\
  (forall q : Qc, ix = Fin q -> in_int (trunc q) = true ->
     ((q <= 0)%Qc -> ixl = 0) /\
     ((Q2Qc (inject_Z (Nx tab - 1)) <= q)%Qc -> ixl = Nx tab - 2)) /\
  (forall q : Qc, iy = Fin q -> in_int (trunc q) = true ->
     ((q <= 0)%Qc -> iyl = 0) /\
     ((Q2Qc (inject_Z (Ny tab - 1)) <= q)%Qc -> iyl = Ny tab - 2)).
Proof.
  intros HNx HNy Hmax Hlen ix iy ixl iyl.
  assert (Bx : 0 <= ixl <= Nx tab - 2) by (apply left_index_bounds; exact HNx).
  assert (By : 0 <= iyl <= Ny tab - 2) by (apply left_index_bounds; exact HNy).
  assert (Hk : forall a b, 0 <= a <= Nx tab - 1 -> 0 <= b <= Ny tab - 1 ->
                 0 <= a * Ny tab + b <= Nx tab * Ny tab - 1) by (intros; nia).
  assert (K1 := Hk ixl iyl ltac:(lia) ltac:(lia)).
  assert (K2 := Hk ixl (iyl + 1) ltac:(lia) ltac:(lia)).
  assert (K3 := Hk (ixl + 1) iyl ltac:(lia) ltac:(lia)).
  assert (K4 := Hk (ixl + 1) (iyl + 1) ltac:(lia) ltac:(lia)).
  assert (Hin : forall k, 0 <= k <= Nx tab * Ny tab - 1 -> in_int k = true).
  { intros k Hk'. apply in_int_iff. unfold INT_MIN, INT_MAX in *. lia. }
  split; [exact Bx|]. split; [exact By|]. split; [|split; [|split]].
  - unfold interpolateTable_indices. fold ix iy. fold ixl iyl.
    repeat constructor; auto; lia.
  - destruct (read_in_bounds z (ixl * Ny tab + iyl)) as (zll & R1 & _); [lia|].
    destruct (read_in_bounds z (ixl * Ny tab + (iyl + 1))) as (zlr & R2 & _); [lia|].
    destruct (read_in_bounds z ((ixl + 1) * Ny tab + iyl)) as (zrl & R3 & _); [lia|].
    destruct (read_in_bounds z ((ixl + 1) * Ny tab + (iyl + 1))) as (zrr & R4 & _); [lia|].
    exists zll, zlr, zrl, zrr. repeat (split; [assumption|]).
    assert (E : interpolateTable_reads ub tab xi yi x y z
                = Some ((zll + (iy - of_int iyl) * (zlr - zll))
                        + (ix - of_int ixl)
                          * ((zrl + (iy - of_int iyl) * (zrr - zrl))
                             - (zll + (iy - of_int iyl) * (zlr - zll))))%D).
    { unfold interpolateTable_reads. fold ix iy. fold ixl iyl.
      rewrite R1, R2, R3, R4. reflexivity. }
    split; [exact E|]. unfold interpolateTable. rewrite E. reflexivity.
  - intros q Hq Hi. unfold ixl. rewrite Hq. split; intros H.
    + apply left_index_low; assumption.
    + apply left_index_high; assumption.
  - intros q Hq Hi. unfold iyl. rewrite Hq. split; intros H.
    + apply left_index_low; assumption.
    + apply left_index_high; assumption.
Qed.

End TableFacts.

Section NodeFacts.

Variable ub : su2double -> Z.

(** The fractional index of the [i]-th node of an axis is [i]. *)
Lemma frac_index_node (a b : Qc) (N i : Z) :
  a <> b -> 2 <= N ->
  frac_index (node_coord [Fin a; Fin b] N i) [Fin a; Fin b] N = of_int i.
Proof.
  intros Hab HN. unfold frac_index, node_coord, elt, of_int. cbn [nth].
  assert (HN0 : Q2Qc (inject_Z (N - 1)) <> 0%Qc) by (apply of_Z_neq_0; lia).
  assert (Hd : (b + - a)%Qc <> 0%Qc).
  { intros E. apply Hab. symmetry.
    transitivity (a + (b + - a))%Qc; [ring | rewrite E; ring]. }
  cbn [sub neg add mul]. rewrite div_Fin by exact HN0.
  cbn [sub neg add mul]. rewrite div_Fin by exact Hd.
  cbn [mul]. f_equal. field. split; assumption.
Qed.

(** The left index at a node: the node itself, or the one before it at
    the end of the axis. *)
Lemma left_index_node (N i : Z) :
  2 <= N -> N - 1 <= INT_MAX -> 0 <= i <= N - 1 ->
  exists l t : Z,
    left_index ub (of_int i) N = l /\ 0 <= l <= N - 2 /\ i = l + t /\
    ((t = 0 /\ (of_int i - of_int l)%D = Fin 0%Qc) \/
     (t = 1 /\ (of_int i - of_int l)%D = Fin 1%Qc)).
Proof.
  intros HN HM Hi.
  assert (E : left_index ub (of_int i) N = Z.min (Z.max 0 i) (N - 2)).
  { unfold left_index, GetValue. rewrite to_int_of_int; [reflexivity|].
    apply in_int_iff. unfold INT_MIN. lia. }
  assert (S : forall l, (of_int i - of_int l)%D = Fin (Q2Qc (inject_Z (i - l)))).
  { intros l. unfold of_int. cbn [sub neg add]. f_equal. apply of_Z_sub. }
  destruct (Z.eq_dec i (N - 1)) as [Hl|Hl].
  - exists (N - 2), 1. rewrite E, S. repeat split; try lia.
    right. split; [reflexivity|]. replace (i - (N - 2)) with 1 by lia.
    reflexivity.
  - exists i, 0. rewrite E, S. repeat split; try lia.
    left. split; [reflexivity|]. rewrite Z.sub_diag. reflexivity.
Qed.

Lemma blend_0 (l r : Qc) : (Fin l + Fin 0%Qc * (Fin r - Fin l))%D = Fin l.
Proof. cbn [sub neg add mul]. f_equal. ring. Qed.

Lemma blend_1 (l r : Qc) : (Fin l + Fin 1%Qc * (Fin r - Fin l))%D = Fin r.
Proof. cbn [sub neg add mul]. f_equal. ring. Qed.

Variable tab : TableData.

(** C4: in exact arithmetic, on axes with finite and distinct bounds
    and a table of [Nx*Ny] finite entries, the lookup at the
    coordinates of the grid node [(i, j)], [0 <= i <= Nx-1] and
    [0 <= j <= Ny-1], returns the entry [z[i*Ny+j]] itself, also on the
    last row and column, where the left index is clamped to [Nx-2] or
    [Ny-2]. *)
Theorem interpolateTable_at_node
  (x0 x1 y0 y1 : Qc) (z : list su2double) (i j : Z) :
  2 <= Nx tab -> 2 <= Ny tab -> Nx tab * Ny tab <= INT_MAX ->
  x0 <> x1 -> y0 <> y1 ->
  Z.of_nat (length z) = Nx tab * Ny tab ->
  Forall (fun v => is_finite v = true) z ->
  0 <= i <= Nx tab - 1 -> 0 <= j <= Ny tab - 1 ->
  let x := [Fin x0; Fin x1] in
  let y := [Fin y0; Fin y1] in
  let xi := node_coord x (Nx tab) i in
  let yi := node_coord y (Ny tab) j in
  read z (i * Ny tab + j) = Some (interpolateTable ub tab xi yi x y z).
Proof.
  intros HNx HNy Hmax Hx Hy Hlen Hfin Hi Hj x y xi yi.
  assert (Ex : frac_index xi x (Nx tab) = of_int i)
    by (apply frac_index_node; assumption).
  assert (Ey : frac_index yi y (Ny tab) = of_int j)
    by (apply frac_index_node; assumption).
  destruct (left_index_node (Nx tab) i HNx ltac:(nia) Hi)
    as (lx & tx & Lx & Bx & Ix & Tx).
  destruct (left_index_node (Ny tab) j HNy ltac:(nia) Hj)
    as (ly & ty & Ly & By & Iy & Ty).
  assert (Hk : forall a b, 0 <= a <= Nx tab - 1 -> 0 <= b <= Ny tab - 1 ->
                 0 <= a * Ny tab + b < Z.of_nat (length z)) by (intros; nia).
  destruct (read_finite z (lx * Ny tab + ly) Hfin) as (zll & R1); [apply Hk; lia|].
  destruct (read_finite z (lx * Ny tab + (ly + 1)) Hfin) as (zlr & R2); [apply Hk; lia|].
  destruct (read_finite z ((lx + 1) * Ny tab + ly) Hfin) as (zrl & R3); [apply Hk; lia|].
  destruct (read_finite z ((lx + 1) * Ny tab + (ly + 1)) Hfin) as (zrr & R4); [apply Hk; lia|].
  unfold interpolateTable, interpolateTable_reads.
  rewrite Ex, Ey, Lx, Ly, R1, R2, R3, R4. cbn [obind].
  destruct Tx as [[-> ->]|[-> ->]], Ty as [[-> ->]|[-> ->]]; subst i j;
    repeat (rewrite blend_0 || rewrite blend_1); rewrite ?Z.add_0_r; assumption.
Qed.

End NodeFacts.

(** A query energy that is not finite gives a lookup that is not
    finite, whatever the table. *)
Lemma interpolateTable_not_finite
  (ub : su2double -> Z) (tab : TableData)
  (xi yi : su2double) (x y z : list su2double) :
  is_finite yi = false -> is_finite (interpolateTable ub tab xi yi x y z) = false.
Proof.
  intros H. unfold interpolateTable, interpolateTable_reads.
  assert (Hy : is_finite (frac_index yi y (Ny tab)) = false).
  { unfold frac_index. apply mul_not_finite_l, div_not_finite_l, sub_not_finite_l, H. }
  set (iy := frac_index yi y (Ny tab)) in *.
  destruct (read z _) as [zll|]; [|reflexivity].
  destruct (read z _) as [zlr|]; [|reflexivity].
  destruct (read z _) as [zrl|]; [|reflexivity].
  destruct (read z _) as [zrr|]; [|reflexivity].
  cbn [obind].
  apply add_not_finite_l, add_not_finite_r, mul_not_finite_l, sub_not_finite_l, Hy.
Qed.

(** ** The accessors *)

Section ClassFacts.

Variable pow : su2double -> su2double -> su2double.
Variable ub : su2double -> Z.
Variable tab : TableData.

(** C5: each of the eleven accessors is the lookup of its own table at
    the density and at [De = e - esat_rho(rho)], where
    [esat_rho(rho) = c0 + c1*rho + c2*pow(rho,1/2) + c3*pow(rho,1/3)];
    the raw energy enters in no other way, so two energies with the
    same [De] give the same value. *)
Theorem accessors_lookup_at_De (rho e : su2double) :
  let Dei := (e - esat_rho pow tab rho)%D in
  let lookup := interpolateTable ub tab rho Dei (Rho tab) (De tab) in
  esat_rho pow tab rho
  = (elt (coefesat tab) 0 + elt (coefesat tab) 1 * rho
     + elt (coefesat tab) 2 * pow rho (lit 1 2)
     + elt (coefesat tab) 3 * pow rho (lit 1 3))%D /\
  P_rhoe pow ub tab rho e = lookup (P_rhoDe tab) /\
  T_rhoe pow ub tab rho e = lookup (T_rhoDe tab) /\
  h_rhoe pow ub tab rho e = lookup (h_rhoDe tab) /\
  s_rhoe pow ub tab rho e = lookup (s_rhoDe tab) /\
  cv_rhoe pow ub tab rho e = lookup (cv_rhoDe tab) /\
  cp_rhoe pow ub tab rho e = lookup (cp_rhoDe tab) /\
  a2_rhoe pow ub tab rho e = lookup (a2_rhoDe tab) /\
  dPdrho_e_rhoe pow ub tab rho e = lookup (dPdrho_e_rhoDe tab) /\
  dPde_rho_rhoe pow ub tab rho e = lookup (dPde_rho_rhoDe tab) /\
  dTdrho_e_rhoe pow ub tab rho e = lookup (dTdrho_e_rhoDe tab) /\
  dTde_rho_rhoe pow ub tab rho e = lookup (dTde_rho_rhoDe tab) /\
  (forall e' : su2double,
     (e' - esat_rho pow tab rho)%D = Dei ->
     P_rhoe pow ub tab rho e' = P_rhoe pow ub tab rho e /\
     T_rhoe pow ub tab rho e' = T_rhoe pow ub tab rho e /\
     h_rhoe pow ub tab rho e' = h_rhoe pow ub tab rho e /\
     s_rhoe pow ub tab rho e' = s_rhoe pow ub tab rho e /\
     cv_rhoe pow ub tab rho e' = cv_rhoe pow ub tab rho e /\
     cp_rhoe pow ub tab rho e' = cp_rhoe pow ub tab rho e /\
     a2_rhoe pow ub tab rho e' = a2_rhoe pow ub tab rho e /\
     dPdrho_e_rhoe pow ub tab rho e' = dPdrho_e_rhoe pow ub tab rho e /\
     dPde_rho_rhoe pow ub tab rho e' = dPde_rho_rhoe pow ub tab rho e /\
     dTdrho_e_rhoe pow ub tab rho e' = dTdrho_e_rhoe pow ub tab rho e /\
     dTde_rho_rhoe pow ub tab rho e' = dTde_rho_rhoe pow ub tab rho e).
Proof.
  intros Dei lookup. repeat (split; [reflexivity|]).
  intros e' He.
  unfold P_rhoe, T_rhoe, h_rhoe, s_rhoe, cv_rhoe, cp_rhoe, a2_rhoe,
    dPdrho_e_rhoe, dPde_rho_rhoe, dTdrho_e_rhoe, dTde_rho_rhoe.
  cbv zeta. rewrite He. repeat split; reflexivity.
Qed.

(** C6: [SetTDState_PT(P, T)] finds [rho*] by [rootFunc] seeded at
    [Rho[0]] on the residual [T_rhoe(rho, e_rhoP(rho, P)) - T], runs the
    [(P, rho)] path with it, and leaves the object that
    [SetTDState_rhoe(rho*, e_rhoP(rho*, P))] leaves. *)
Theorem SetTDState_PT_reuses_rhoe (P T : su2double) (o : CTableFluid) :
  let rho_star :=
    rootFunc (elt (Rho tab) 0)
      (fun rho => (T_rhoe pow ub tab rho (e_rhoP pow ub tab rho P) - T)%D) in
  rho_PT pow ub tab P T = rho_star /\
  SetTDState_PT pow ub tab P T o = SetTDState_Prho pow ub tab P rho_star o /\
  SetTDState_PT pow ub tab P T o
  = SetTDState_rhoe pow ub tab rho_star (e_rhoP pow ub tab rho_star P) o.
Proof. intros rho_star. repeat split; reflexivity. Qed.

Lemma SetTDState_rhoe_P_T (rho e : su2double) (o : CTableFluid) :
  Pressure (SetTDState_rhoe pow ub tab rho e o) = P_rhoe pow ub tab rho e /\
  Temperature (SetTDState_rhoe pow ub tab rho e o) = T_rhoe pow ub tab rho e.
Proof.
  unfold SetTDState_rhoe.
  destruct o as [flag d se p t s a dpr dpe dtr dte cv cp].
  destruct flag; split; reflexivity.
Qed.

(** C8: [SetTDState_rhoe(rho, e)] assigns the density, the energy, the
    pressure, the temperature, the squared speed of sound, both specific
    heats and the four derivatives whatever the object held; it assigns
    the entropy when the flag [ComputeEntropy] is set and leaves it as
    it was when the flag is clear; the flag is the argument given to
    the constructor and no setter changes it. *)
Theorem SetTDState_rhoe_fields (rho e : su2double) (o : CTableFluid) :
  let o' := SetTDState_rhoe pow ub tab rho e o in
  Density o' = rho /\
  StaticEnergy o' = e /\
  Pressure o' = P_rhoe pow ub tab rho e /\
  Temperature o' = T_rhoe pow ub tab rho e /\
  SoundSpeed2 o' = a2_rhoe pow ub tab rho e /\
  Cv o' = cv_rhoe pow ub tab rho e /\
  Cp o' = cp_rhoe pow ub tab rho e /\
  dPdrho_e o' = dPdrho_e_rhoe pow ub tab rho e /\
  dPde_rho o' = dPde_rho_rhoe pow ub tab rho e /\
  dTdrho_e o' = dTdrho_e_rhoe pow ub tab rho e /\
  dTde_rho o' = dTde_rho_rhoe pow ub tab rho e /\
  Entropy o' = (if ComputeEntropy o then s_rhoe pow ub tab rho e else Entropy o) /\
  ComputeEntropy o' = ComputeEntropy o /\
  (forall (base : CTableFluid) (CompEntropy : bool),
     ComputeEntropy (CTableFluid_new base CompEntropy) = CompEntropy /\
     Entropy (SetTDState_rhoe pow ub tab rho e (CTableFluid_new base CompEntropy))
     = (if CompEntropy then s_rhoe pow ub tab rho e else Entropy base)).
Proof.
  intros o'. subst o'. unfold SetTDState_rhoe.
  destruct o as [flag d se p t s a dpr dpe dtr dte cv cp]. cbn.
  destruct flag; cbn; do 13 (split; [reflexivity|]);
    intros base CompEntropy; (split; [reflexivity|]);
    destruct CompEntropy; reflexivity.
Qed.

(** C10: [SetEnergy_Prho(P, rho)] assigns [StaticEnergy], to
    [e_rhoP(rho, P)], and no other field. *)
Theorem SetEnergy_Prho_frame (P rho : su2double) (o : CTableFluid) :
  let o' := SetEnergy_Prho pow ub tab P rho o in
  StaticEnergy o' = e_rhoP pow ub tab rho P /\
  Density o' = Density o /\
  Pressure o' = Pressure o /\
  Temperature o' = Temperature o /\
  Entropy o' = Entropy o /\
  SoundSpeed2 o' = SoundSpeed2 o /\
  Cv o' = Cv o /\
  Cp o' = Cp o /\
  dPdrho_e o' = dPdrho_e o /\
  dPde_rho o' = dPde_rho o /\
  dTdrho_e o' = dTdrho_e o /\
  dTde_rho o' = dTde_rho o /\
  ComputeEntropy o' = ComputeEntropy o.
Proof. intros o'. repeat split; reflexivity. Qed.

End ClassFacts.

(** ** Inversion of the pressure *)

Lemma rootFunc_stops_at_once (func : su2double -> su2double) (x0 : su2double) :
  rootFunc_cond (rootFunc_init func x0) = false -> rootFunc x0 func = x0.
Proof.
  intros H. unfold rootFunc. cbn [rootFunc_while]. rewrite H. reflexivity.
Qed.

Lemma Qc_mul_nonneg (a b : Qc) : (0 <= a)%Qc -> (0 <= b)%Qc -> (0 <= a * b)%Qc.
Proof.
  intros Ha Hb. rewrite <- (Qcmult_0_l b). apply Qcmult_le_compat_r; assumption.
Qed.

(** A residual of zero passes the first tolerance test when the seed
    is not negative. *)
Lemma gtb_zero_tolerance (p s : Qc) :
  (0 <= s)%Qc ->
  gtb (abs (Fin p - Fin p)) (lit 1 1000000000 * (lit 101 100 * Fin s))%D = false.
Proof.
  intros Hs. unfold lit. cbn [sub neg add abs mul gtb].
  replace (p + - p)%Qc with 0%Qc by ring.
  rewrite Qcabs_pos by apply Qcle_refl.
  destruct (0 ?= _)%Qc eqn:E; try reflexivity.
  exfalso. revert E. apply Qcle_alt.
  apply Qc_mul_nonneg; [|apply Qc_mul_nonneg; [|exact Hs]];
    unfold Qcle; vm_compute; discriminate.
Qed.

Section InversionFacts.

Variable pow : su2double -> su2double -> su2double.
Variable ub : su2double -> Z.
Variable tab : TableData.

(** C7, amended: with [P = P_rhoe(rho, e)], the energy that
    [e_rhoP(rho, P)] returns is the point where the secant loop on
    [P_rhoe(rho, x) - P] stops; when it stops before the cap, the test
    [abs(r) > 1e-9 * x0] of the pressure residual [r] at that energy
    against the last trial point [x0] is false, which for finite [r]
    and [x0] is [abs(r) <= 1e-9 * x0].  The returned energy is the
    original [e]
    when [e] is the seed [esat_rho(rho) + De[0]] itself, the seed is not
    negative and [P] is finite. *)
Theorem e_rhoP_round_trip (rho e : su2double) :
  let P := P_rhoe pow ub tab rho e in
  let f := fun x => (P_rhoe pow ub tab rho x - P)%D in
  let seed := (esat_rho pow tab rho + elt (De tab) 0)%D in
  (exists k : nat,
     (k <= 20)%nat /\
     rootFunc_while f 20 (rootFunc_init f seed)
     = Some (rootFunc_iter f k (rootFunc_init f seed)) /\
     e_rhoP pow ub tab rho P = sec_x (rootFunc_iter f k (rootFunc_init f seed)) /\
     ((k < 20)%nat ->
      let x0 := sec_x0 (rootFunc_iter f k (rootFunc_init f seed)) in
      let r := (P_rhoe pow ub tab rho (e_rhoP pow ub tab rho P) - P)%D in
      gtb (abs r) (lit 1 1000000000 * x0)%D = false /\
      (is_finite r = true -> is_finite x0 = true ->
       leb (abs r) (lit 1 1000000000 * x0)%D = true))) /\
  (e = seed -> is_finite P = true -> leb (Fin 0%Qc) seed = true ->
   e_rhoP pow ub tab rho P = e).
Proof.
  intros P f seed.
  assert (Hr : forall s, rootFunc_while f 20 (rootFunc_init f seed) = Some s ->
                 e_rhoP pow ub tab rho P = sec_x s).
  { intros s Hs. unfold e_rhoP. cbv zeta. fold seed. fold f.
    unfold rootFunc. rewrite Hs. reflexivity. }
  split.
  - destruct (rootFunc_while_20 f seed) as (k & Hk & Hw & Hc & _).
    exists k. split; [exact Hk|]. split; [exact Hw|].
    split; [apply Hr; exact Hw|]. intros Hlt. rewrite (Hr _ Hw).
    set (s := rootFunc_iter f k (rootFunc_init f seed)) in *.
    assert (Ht : rootFunc_tol s = false).
    { apply rootFunc_cond_false; [exact Hc|].
      unfold s. rewrite rootFunc_iter_n. simpl. lia. }
    unfold rootFunc_tol in Ht. unfold s in Ht at 1.
    rewrite rootFunc_iter_y in Ht. fold s in Ht.
    change (f (sec_x s)) with (P_rhoe pow ub tab rho (sec_x s) - P)%D in Ht.
    intros x0 r. fold r in Ht. fold x0 in Ht.
    split; [exact Ht|]. intros F1 F2.
    rewrite gtb_leb_finite in Ht.
    + apply negb_false_iff. exact Ht.
    + destruct r; simpl in *; congruence.
    + destruct x0; simpl in *; congruence.
  - intros He HP Hs. subst e.
    unfold e_rhoP. cbv zeta. fold seed. fold P. fold f.
    apply rootFunc_stops_at_once.
    unfold rootFunc_cond, rootFunc_tol, rootFunc_init. cbn [sec_y sec_x0 sec_n].
    unfold f at 1. fold P.
    destruct P as [p| | |]; try discriminate HP.
    destruct seed as [s| | |]; try discriminate Hs.
    + rewrite gtb_zero_tolerance; [reflexivity|].
      simpl in Hs. apply Qcle_alt. destruct (0 ?= s)%Qc; congruence.
    + assert (T : (lit 1 1000000000 * (lit 101 100 * PInf))%D = PInf)
        by (vm_compute; reflexivity).
      rewrite T. reflexivity.
Qed.

End InversionFacts.

(** C7, counterexample: on [demo_table], which meets the data model,
    take the node of density 1 and energy deviation 3, that is
    [e = 4.5], where the tabulated pressure is 2.  The inversion of
    the pressure 2 at the density 1 starts at the seed 2.5, where the
    pressure is 2 as well, and returns the seed at once: it is 2 away
    from [e]. *)
Lemma e_rhoP_not_inverse : ~ e_rhoP_recovers_energy pow_base_one cast_indefinite.
Proof.
  intros H.
  assert (H' := H demo_table 0 2 ltac:(vm_compute; reflexivity)
                  ltac:(cbn; lia) ltac:(cbn; lia)).
  vm_compute in H'. discriminate H'.
Qed.

(** The same inversion from the middle node, where the pressure is 5,
    does return the energy of that node, 3.5. *)
Example e_rhoP_middle_node :
  eqb (e_rhoP pow_base_one cast_indefinite demo_table (lit 1 1) (lit 5 1))
      (lit 7 2) = true.
Proof. vm_compute. reflexivity. Qed.

(** C9: a seed and a residual function, both finite, for which the
    first round of the loop is entered (the tolerance is not met) with
    two equal residuals, so that [dy == 0]; the update divides by it and
    leaves an infinite [x0]; the loop goes on from there and [rootFunc]
    returns a value that is not finite.  The body computes the update
    for every state, without a test of [dy].  A value that is not
    finite stays so in sums, differences and products, and as the energy
    of a lookup it makes the pressure and the temperature, and with them
    the state that [SetTDState_rhoe] sets, not finite. *)
Theorem rootFunc_zero_delta_not_finite :
  exists (seed : su2double) (func : su2double -> su2double),
    is_finite seed = true /\
    (forall x : su2double, is_finite (func x) = true) /\
    (let s := rootFunc_init func seed in
     rootFunc_cond s = true /\
     eqb (sec_y s - func (sec_x0 s))%D (Fin 0) = true /\
     is_finite (sec_x0 (rootFunc_body func s)) = false) /\
    is_finite (rootFunc seed func) = false /\
    (forall s : secant,
       sec_x0 (rootFunc_body func s)
       = (sec_x0 s
          - func (sec_x0 s) * (sec_x s - sec_x0 s)
            / (sec_y s - func (sec_x0 s)))%D) /\
    (forall b : su2double,
       is_finite (rootFunc seed func + b)%D = false /\
       is_finite (rootFunc seed func - b)%D = false /\
       is_finite (rootFunc seed func * b)%D = false) /\
    (forall (pow : su2double -> su2double -> su2double) (ub : su2double -> Z)
            (tab : TableData) (rho : su2double) (o : CTableFluid),
       let e := rootFunc seed func in
       is_finite (P_rhoe pow ub tab rho e) = false /\
       is_finite (T_rhoe pow ub tab rho e) = false /\
       is_finite (Pressure (SetTDState_rhoe pow ub tab rho e o)) = false /\
       is_finite (Temperature (SetTDState_rhoe pow ub tab rho e o)) = false).
Proof.
  exists (lit 1 1), minus_one.
  assert (R : is_finite (rootFunc (lit 1 1) minus_one) = false)
    by (vm_compute; reflexivity).
  split; [reflexivity|]. split; [intros x; reflexivity|].
  split; [vm_compute; repeat split; reflexivity|].
  split; [exact R|]. split; [intros s; reflexivity|]. split.
  - intros b. repeat split.
    + apply add_not_finite_l, R.
    + apply sub_not_finite_l, R.
    + apply mul_not_finite_l, R.
  - intros pow ub tab rho o e.
    assert (HP : is_finite (P_rhoe pow ub tab rho e) = false)
      by (apply interpolateTable_not_finite, sub_not_finite_l, R).
    assert (HT : is_finite (T_rhoe pow ub tab rho e) = false)
      by (apply interpolateTable_not_finite, sub_not_finite_l, R).
    split; [exact HP|]. split; [exact HT|].
    destruct (SetTDState_rhoe_P_T pow ub tab rho e o) as (EP & ET).
    rewrite EP, ET. split; assumption.
Qed.


(** On [rising_table], which meets the data model and whose pressure
    is strictly increasing in the energy, the inversion from the middle
    node of the density 1 (energy 1, pressure 5) has the seed 0: both
    secant points are 0, the first update is [0/0], the loop stops after
    one round and returns 0, where the pressure is 2. *)
Example e_rhoP_zero_seed :
  table_ok rising_table = true /\
  eqb (P_rhoe pow_base_one cast_indefinite rising_table (lit 1 1) (lit 1 1))
      (lit 5 1) = true /\
  eqb (e_rhoP pow_base_one cast_indefinite rising_table (lit 1 1) (lit 5 1))
      (lit 0 1) = true /\
  eqb (P_rhoe pow_base_one cast_indefinite rising_table (lit 1 1)
         (e_rhoP pow_base_one cast_indefinite rising_table (lit 1 1) (lit 5 1)))
      (lit 2 1) = true.
Proof. vm_compute. repeat split; reflexivity. Qed.

(** [SetTDState_rhoe] on [demo_table] at the density 1 and the energy
    3.5, the middle node: with the flag clear the entropy keeps the
    value the object had, with the flag set it is the tabulated 2. *)
Example SetTDState_rhoe_entropy :
  let set := SetTDState_rhoe pow_base_one cast_indefinite demo_table
               (lit 1 1) (lit 7 2) in
  eqb (Entropy (set (demo_object false))) (lit 42 1) = true /\
  eqb (Entropy (set (demo_object true))) (lit 2 1) = true /\
  eqb (Pressure (set (demo_object false))) (lit 5 1) = true /\
  eqb (Temperature (set (demo_object false))) (lit 310 1) = true.
Proof. vm_compute. repeat split; reflexivity. Qed.

(** ** The theorems at concrete inputs *)

(** Equality of two numbers that evaluate to the same finite value. *)
Ltac su2_eq := vm_compute; f_equal; apply Qc_is_canon; vm_compute; reflexivity.

(** A query right of and below the grid of [demo_table]: the four
    reads are those of the first cell. *)
Lemma interpolateTable_in_bounds_witness :
  Forall (fun k => 0 <= k <= Nx demo_table * Ny demo_table - 1 /\ in_int k = true)
    (interpolateTable_indices cast_indefinite demo_table (lit 5 1) (lit (-7) 2)
       (Rho demo_table) (De demo_table)).
Proof.
  refine (proj1 (proj2 (proj2
    (interpolateTable_in_bounds cast_indefinite demo_table (lit 5 1) (lit (-7) 2)
       (Rho demo_table) (De demo_table) (P_rhoDe demo_table) _ _ _ _)))).
  - cbn. lia.
  - cbn. lia.
  - cbn. unfold INT_MAX. lia.
  - reflexivity.
Defined.

(** The last node of the last row of [demo_table]. *)
Lemma interpolateTable_at_node_witness :
  read (P_rhoDe demo_table) (1 * Ny demo_table + 2)
  = Some (interpolateTable cast_indefinite demo_table
            (node_coord (Rho demo_table) (Nx demo_table) 1)
            (node_coord (De demo_table) (Ny demo_table) 2)
            (Rho demo_table) (De demo_table) (P_rhoDe demo_table)).
Proof.
  apply (interpolateTable_at_node cast_indefinite demo_table
           (Q2Qc (1 # 1)) (Q2Qc (2 # 1)) (Q2Qc (1 # 1)) (Q2Qc (3 # 1))
           (P_rhoDe demo_table) 1 2).
  - cbn. lia.
  - cbn. lia.
  - cbn. unfold INT_MAX. lia.
  - intros E. apply Q2Qc_eq_iff in E. discriminate E.
  - intros E. apply Q2Qc_eq_iff in E. discriminate E.
  - reflexivity.
  - repeat constructor.
  - cbn. lia.
  - cbn. lia.
Defined.

(** The round trip from the first node of the density 1 of
    [demo_table], whose energy, 2.5, is the seed of the inversion. *)
Lemma e_rhoP_round_trip_witness :
  e_rhoP pow_base_one cast_indefinite demo_table (lit 1 1)
    (P_rhoe pow_base_one cast_indefinite demo_table (lit 1 1) (lit 5 2))
  = lit 5 2.
Proof.
  apply (proj2 (e_rhoP_round_trip pow_base_one cast_indefinite demo_table
                  (lit 1 1) (lit 5 2))).
  - su2_eq.
  - vm_compute. reflexivity.
  - vm_compute. reflexivity.
Defined.

(** * Further properties *)

(** ** The secant solver on particular seeds and residuals *)

Lemma Qc_eq_bool_refl (p : Qc) : Qc_eq_bool p p = true.
Proof.
  unfold Qc_eq_bool. destruct (Qc_eq_dec p p); [reflexivity|contradiction].
Qed.

Lemma div_Fin_zero (p q : Qc) :
  p = 0%Qc -> q = 0%Qc -> (Fin p / Fin q)%D = NaN.
Proof. intros -> ->. reflexivity. Qed.

(** The secant update between two points that are both 0. *)
Lemma secant_update_at_zero (y : su2double) :
  (Fin 0%Qc - y * (Fin 0%Qc - Fin 0%Qc) / (y - y))%D = NaN.
Proof.
  destruct y as [p| | |]; try reflexivity.
  cbn [sub neg add mul]. rewrite div_Fin_zero; [reflexivity| |]; ring.
Qed.

Lemma rootFunc_init_zero (func : su2double -> su2double) :
  rootFunc_init func (Fin 0%Qc)
  = {| sec_n := 0; sec_x := Fin 0%Qc; sec_y := func (Fin 0%Qc);
       sec_x0 := Fin 0%Qc |}.
Proof.
  unfold rootFunc_init, lit. cbn [mul]. rewrite Qcmult_0_r. reflexivity.
Qed.

Lemma rootFunc_tol_NaN (s : secant) : sec_x0 s = NaN -> rootFunc_tol s = false.
Proof.
  intros H. unfold rootFunc_tol. rewrite H.
  destruct (abs (sec_y s)); reflexivity.
Qed.

(** With the seed 0 the loop runs at most once and the seed comes
    back. *)
Lemma rootFunc_at_zero (func : su2double -> su2double) :
  exists k : nat,
    (k <= 1)%nat /\
    rootFunc_while func 20 (rootFunc_init func (Fin 0%Qc))
    = Some (rootFunc_iter func k (rootFunc_init func (Fin 0%Qc))) /\
    rootFunc (Fin 0%Qc) func = Fin 0%Qc.
Proof.
  unfold rootFunc. rewrite rootFunc_init_zero.
  set (s0 := {| sec_n := 0; sec_x := Fin 0%Qc; sec_y := func (Fin 0%Qc);
                sec_x0 := Fin 0%Qc |}).
  destruct (rootFunc_cond s0) eqn:C0.
  - assert (C1 : rootFunc_cond (rootFunc_body func s0) = false).
    { unfold rootFunc_cond. rewrite rootFunc_tol_NaN; [reflexivity|].
      unfold rootFunc_body, s0. cbn [sec_x sec_y sec_x0].
      apply secant_update_at_zero. }
    exists 1%nat. split; [lia|].
    cbn [rootFunc_while rootFunc_iter]. rewrite C0, C1. split; reflexivity.
  - exists 0%nat. split; [lia|].
    cbn [rootFunc_while rootFunc_iter]. rewrite C0. split; reflexivity.
Qed.

(** X1: whatever the residual function, also one whose values are not
    finite, [rootFunc] called with the seed 0 returns 0 after at most
    one round: both secant points are then 0 and the first update is
    NaN, which ends the loop. *)
Theorem rootFunc_zero_seed (func : su2double -> su2double) :
  rootFunc (Fin 0%Qc) func = Fin 0%Qc /\
  exists k : nat,
    (k <= 1)%nat /\
    rootFunc_while func 20 (rootFunc_init func (Fin 0%Qc))
    = Some (rootFunc_iter func k (rootFunc_init func (Fin 0%Qc))).
Proof.
  destruct (rootFunc_at_zero func) as (k & Hk & Hw & Hr).
  split; [exact Hr|]. exists k. split; assumption.
Qed.

Lemma lit_pos_mul_neg (q : Qc) :
  (q < 0)%Qc -> (Q2Qc (1 # 1000000000) * q < 0)%Qc.
Proof.
  intros H. rewrite Qcmult_comm.
  rewrite <- (Qcmult_0_l (Q2Qc (1 # 1000000000))).
  apply Qcmult_lt_compat_r; [|exact H]. unfold Qclt. vm_compute. reflexivity.
Qed.


(** X3: when the residual at the seed is exactly 0 and the seed is a
    number that is not negative, [rootFunc] returns the seed without
    running its loop. *)
Theorem rootFunc_root_at_seed (func : su2double -> su2double) (seed : Qc) :
  (0 <= seed)%Qc -> func (Fin seed) = Fin 0%Qc ->
  rootFunc (Fin seed) func = Fin seed /\
  rootFunc_while func 20 (rootFunc_init func (Fin seed))
  = Some (rootFunc_init func (Fin seed)).
Proof.
  intros Hs Hf.
  assert (C : rootFunc_cond (rootFunc_init func (Fin seed)) = false).
  { unfold rootFunc_cond, rootFunc_tol, rootFunc_init. cbn [sec_y sec_x0 sec_n].
    rewrite Hf.
    replace (Fin 0%Qc) with (Fin 0%Qc - Fin 0%Qc)%D by reflexivity.
    rewrite gtb_zero_tolerance; [reflexivity|exact Hs]. }
  split.
  - apply rootFunc_stops_at_once. exact C.
  - cbn [rootFunc_while]. rewrite C. reflexivity.
Qed.

(** *** An affine residual *)

Section Affine.

Variables a b : Qc.
Hypothesis a_neq_0 : a <> 0%Qc.

(** [f(x) = a*x + b] *)
Let f (x : su2double) : su2double := (Fin a * x + Fin b)%D.
Let r : Qc := (- b / a)%Qc.

Lemma affine_at_root : (a * r + b)%Qc = 0%Qc.
Proof. unfold r. field. exact a_neq_0. Qed.

Lemma affine_first_round (s : Qc) :
  s <> 0%Qc ->
  rootFunc_body f (rootFunc_init f (Fin s))
  = {| sec_n := 1;
       sec_x := Fin (Q2Qc (101 # 100) * s);
       sec_y := Fin (a * (Q2Qc (101 # 100) * s) + b);
       sec_x0 := Fin r |}.
Proof.
  intros Hs. unfold rootFunc_body, rootFunc_init, f, lit.
  cbn [sec_n sec_x sec_y sec_x0 sub neg add mul].
  set (c := Q2Qc (101 # 100)).
  assert (Hc : (1 - c)%Qc <> 0%Qc).
  { intros E. apply (f_equal (fun q : Qc => Qnum (this q))) in E.
    vm_compute in E. discriminate E. }
  assert (Hd : (a * s + b + - (a * (c * s) + b))%Qc <> 0%Qc).
  { intros E.
    assert (E' : (a * (s * (1 - c)))%Qc = 0%Qc) by (rewrite <- E; ring).
    apply Qcmult_integral in E' as [E'|E']; [contradiction|].
    apply Qcmult_integral in E' as [E'|E']; contradiction. }
  rewrite div_Fin by exact Hd. cbn [sub neg add].
  f_equal. f_equal. unfold r. field. split; [exact a_neq_0|].
  intros E. apply Hd. rewrite <- E. ring.
Qed.

(** A round from a trial point that is the root. *)
Lemma affine_round_at_root (s : secant) (u v : Qc) :
  sec_x s = Fin u -> sec_y s = Fin v -> sec_x0 s = Fin r ->
  sec_x (rootFunc_body f s) = Fin r /\
  is_finite (sec_y (rootFunc_body f s)) = true /\
  (sec_x0 (rootFunc_body f s) = Fin r \/ sec_x0 (rootFunc_body f s) = NaN).
Proof.
  intros Hx Hy Hx0. unfold rootFunc_body. cbn [sec_x sec_y sec_x0].
  rewrite Hx, Hy, Hx0. unfold f. cbn [sub neg add mul].
  split; [reflexivity|]. split; [reflexivity|].
  rewrite affine_at_root.
  destruct (Qc_eq_dec (v + - 0)%Qc 0%Qc) as [E|E].
  - right. rewrite div_Fin_zero; [reflexivity| ring | exact E].
  - left. rewrite div_Fin by exact E. cbn [sub neg add]. f_equal. field.
    intros E'. apply E. rewrite E'. ring.
Qed.

Lemma affine_later_rounds (s : Qc) (k : nat) :
  s <> 0%Qc ->
  (forall j : nat, (j < k)%nat ->
     rootFunc_cond (rootFunc_iter f j (rootFunc_init f (Fin s))) = true) ->
  (1 <= k)%nat ->
  exists u v : Qc,
    sec_x (rootFunc_iter f k (rootFunc_init f (Fin s))) = Fin u /\
    sec_y (rootFunc_iter f k (rootFunc_init f (Fin s))) = Fin v /\
    (sec_x0 (rootFunc_iter f k (rootFunc_init f (Fin s))) = Fin r \/
     sec_x0 (rootFunc_iter f k (rootFunc_init f (Fin s))) = NaN) /\
    ((2 <= k)%nat -> u = r).
Proof.
  intros Hs. induction k as [|k IH]; intros Hb Hk; [lia|].
  destruct k as [|k].
  - change (rootFunc_iter f 1 (rootFunc_init f (Fin s)))
      with (rootFunc_body f (rootFunc_init f (Fin s))).
    rewrite affine_first_round by exact Hs. cbn [sec_x sec_y sec_x0].
    eexists. eexists. repeat split; try reflexivity.
    + left. reflexivity.
    + intros; lia.
  - destruct IH as (u & v & Hx & Hy & Hx0 & _); [intros j Hj; apply Hb; lia|lia|].
    assert (C := Hb (S k) ltac:(lia)).
    apply rootFunc_cond_true in C as [C _].
    destruct Hx0 as [Hx0|Hx0]; [|rewrite rootFunc_tol_NaN in C by exact Hx0; discriminate].
    rewrite rootFunc_iter_S.
    destruct (affine_round_at_root _ u v Hx Hy Hx0) as (Ex & Ey & Ex0).
    destruct (sec_y (rootFunc_body f _)) as [v'| | |] eqn:Ev; try discriminate Ey.
    exists r, v'. repeat split; auto.
Qed.

(** X4: on the residual [f(x) = a*x + b] with [a <> 0] and a seed [s]
    that is a number other than 0, the first secant update is the root
    [-b/a] itself.  [rootFunc] returns the seed when the first
    tolerance test stops the loop, [1.01*s] when the second does, and
    the root [-b/a] exactly in every other case. *)
Theorem rootFunc_affine (s : Qc) :
  s <> 0%Qc ->
  let init := rootFunc_init f (Fin s) in
  sec_x0 (rootFunc_body f init) = Fin (- b / a)%Qc /\
  (rootFunc_tol init = false -> rootFunc (Fin s) f = Fin s) /\
  (rootFunc_tol init = true -> rootFunc_tol (rootFunc_body f init) = false ->
   rootFunc (Fin s) f = Fin (Q2Qc (101 # 100) * s)%Qc) /\
  (rootFunc_tol init = true -> rootFunc_tol (rootFunc_body f init) = true ->
   rootFunc (Fin s) f = Fin (- b / a)%Qc).
Proof.
  intros Hs init. split; [|split; [|split]].
  - unfold init. rewrite affine_first_round by exact Hs. reflexivity.
  - intros T0. apply rootFunc_stops_at_once. fold init.
    unfold rootFunc_cond. rewrite T0. reflexivity.
  - intros T0 T1. unfold rootFunc. fold init. cbn [rootFunc_while].
    unfold rootFunc_cond at 1. rewrite T0. cbn [andb].
    change (sec_n init <? 20) with true. cbv iota.
    unfold rootFunc_cond at 1. rewrite T1. cbn [andb].
    unfold init. rewrite affine_first_round by exact Hs. reflexivity.
  - intros T0 T1.
    destruct (rootFunc_while_20 f (Fin s)) as (k & Hk & Hw & Hc & Hb).
    fold init in Hw, Hc, Hb.
    assert (C0 : rootFunc_cond init = true)
      by (unfold rootFunc_cond; rewrite T0; reflexivity).
    assert (C1 : rootFunc_cond (rootFunc_body f init) = true).
    { unfold rootFunc_cond. rewrite T1. unfold init.
      rewrite affine_first_round by exact Hs. reflexivity. }
    assert (K : (2 <= k)%nat).
    { destruct k as [|[|k]]; [| |lia].
      - cbn [rootFunc_iter] in Hc. congruence.
      - cbn [rootFunc_iter] in Hc. congruence. }
    destruct (affine_later_rounds s k Hs Hb ltac:(lia)) as (u & v & Hx & _ & _ & Hu).
    unfold rootFunc. fold init. rewrite Hw. fold init in Hx. rewrite Hx.
    rewrite (Hu K). reflexivity.
Qed.

End Affine.

Lemma Qc_one_neq_0 : Q2Qc (1 # 1) <> 0%Qc.
Proof.
  intros E. apply (f_equal (fun q : Qc => Qnum (this q))) in E.
  vm_compute in E. discriminate E.
Qed.

(** [f(x) = x - 5] from the seed 1: the root 5. *)
Lemma rootFunc_affine_witness :
  rootFunc (lit 1 1) line_minus_5 = Fin (- Q2Qc (-5 # 1) / Q2Qc (1 # 1))%Qc.
Proof.
  apply (proj2 (proj2 (proj2
    (rootFunc_affine (Q2Qc (1 # 1)) (Q2Qc (-5 # 1)) Qc_one_neq_0
       (Q2Qc (1 # 1)) Qc_one_neq_0)))).
  - vm_compute. reflexivity.
  - vm_compute. reflexivity.
Defined.


(** [f(x) = x - 5] from the seed 5. *)
Lemma rootFunc_root_at_seed_witness :
  rootFunc (Fin (Q2Qc (5 # 1))) line_minus_5 = Fin (Q2Qc (5 # 1)).
Proof.
  refine (proj1 (rootFunc_root_at_seed line_minus_5 (Q2Qc (5 # 1)) _ _)).
  - unfold Qcle. vm_compute. discriminate.
  - su2_eq.
Defined.

(** ** The lookup on particular tables and queries *)

Lemma of_Z_succ (l : Z) : of_Z (l + 1) = (of_Z l + 1)%Qc.
Proof.
  assert (E : (of_Z (l + 1) - of_Z l)%Qc = 1%Qc).
  { unfold of_Z. rewrite of_Z_sub. replace (l + 1 - l) with 1 by lia. reflexivity. }
  transitivity (of_Z l + (of_Z (l + 1) - of_Z l))%Qc; [ring|].
  rewrite E. reflexivity.
Qed.

Lemma of_Z_le_iff (a b : Z) : (of_Z a <= of_Z b)%Qc <-> a <= b.
Proof.
  unfold Qcle, of_Z. rewrite !this_of_Z. unfold Qle. simpl. lia.
Qed.

(** X5: a table that samples [a + b*i + c*j + d*i*j] at its nodes is
    reproduced by the lookup at every query whose fractional indices
    [(qx, qy)] are numbers: the result is [a + b*qx + c*qy + d*qx*qy],
    inside the grid and outside it, whichever cell the clamp selects
    and whatever an undefined cast yields. *)
Theorem interpolateTable_bilinear_exact
  (ub : su2double -> Z) (tab : TableData)
  (xi yi : su2double) (x y z : list su2double) (a b c d qx qy : Qc) :
  2 <= Nx tab -> 2 <= Ny tab ->
  samples_bilinear tab z a b c d ->
  frac_index xi x (Nx tab) = Fin qx ->
  frac_index yi y (Ny tab) = Fin qy ->
  interpolateTable ub tab xi yi x y z = Fin (bilinear_at a b c d qx qy).
Proof.
  intros HNx HNy Hz Hx Hy. unfold interpolateTable, interpolateTable_reads.
  rewrite Hx, Hy.
  set (l := left_index ub (Fin qx) (Nx tab)).
  set (m := left_index ub (Fin qy) (Ny tab)).
  assert (Bl : 0 <= l <= Nx tab - 2) by (apply left_index_bounds; exact HNx).
  assert (Bm : 0 <= m <= Ny tab - 2) by (apply left_index_bounds; exact HNy).
  rewrite (Hz l m), (Hz l (m + 1)), (Hz (l + 1) m), (Hz (l + 1) (m + 1)) by lia.
  cbn [obind]. unfold of_int. fold (of_Z l). fold (of_Z m).
  cbn [sub neg add mul]. f_equal. unfold bilinear_at.
  rewrite !of_Z_succ. ring.
Qed.

Lemma trunc_nonneg (q : Qc) :
  (0 <= q)%Qc ->
  0 <= trunc q /\ (of_Z (trunc q) <= q)%Qc /\ (q <= of_Z (trunc q + 1))%Qc.
Proof.
  unfold Qcle, of_Z. rewrite !this_of_Z. unfold trunc, Qle.
  destruct q as [[n d] Hc]. simpl. intros Hn.
  rewrite Z.quot_div_nonneg by lia.
  pose proof (Z.mul_div_le n (Z.pos d) ltac:(lia)).
  pose proof (Z.mul_succ_div_gt n (Z.pos d) ltac:(lia)).
  pose proof (Z.div_pos n (Z.pos d) ltac:(lia) ltac:(lia)).
  repeat split; lia.
Qed.

(** Inside the grid the fractional index lies between the left index
    and the next. *)
Lemma left_index_weight (ub : su2double -> Z) (q : Qc) (N : Z) :
  2 <= N -> N - 1 <= INT_MAX ->
  (0 <= q)%Qc -> (q <= of_Z (N - 1))%Qc ->
  let l := left_index ub (Fin q) N in
  0 <= l <= N - 2 /\ (of_Z l <= q)%Qc /\ (q <= of_Z (l + 1))%Qc.
Proof.
  intros HN HM H0 H1 l.
  destruct (trunc_nonneg q H0) as (T0 & T1 & T2).
  assert (T3 : trunc q <= N - 1).
  { apply of_Z_le_iff. eapply Qcle_trans; eassumption. }
  assert (E : l = Z.min (trunc q) (N - 2)).
  { unfold l, left_index, GetValue, to_int.
    assert (I : in_int (trunc q) = true)
      by (apply in_int_iff; unfold INT_MIN; lia).
    rewrite I. lia. }
  split; [lia|].
  destruct (Z_le_gt_dec (trunc q) (N - 2)) as [L|L].
  - replace l with (trunc q) by lia. split; assumption.
  - assert (trunc q = N - 1) by lia. replace l with (N - 2) by lia. split.
    + eapply Qcle_trans; [|exact T1]. apply of_Z_le_iff. lia.
    + replace (N - 2 + 1) with (N - 1) by lia. exact H1.
Qed.

Lemma Qc_add_nonneg (p q : Qc) : (0 <= p)%Qc -> (0 <= q)%Qc -> (0 <= p + q)%Qc.
Proof.
  intros Hp Hq. rewrite <- (Qcplus_0_l 0%Qc). apply Qcplus_le_compat; assumption.
Qed.

Lemma Qc_sub_nonneg (p q : Qc) : (p <= q)%Qc -> (0 <= q + - p)%Qc.
Proof. intros H. apply (proj1 (Qcle_minus_iff p q)). exact H. Qed.

(** A blend with a weight between 0 and 1 stays between the bounds of
    its two ends. *)
Lemma blend_between (lo hi l r t : Qc) :
  (lo <= l)%Qc -> (l <= hi)%Qc -> (lo <= r)%Qc -> (r <= hi)%Qc ->
  (0 <= t)%Qc -> (t <= 1)%Qc ->
  (lo <= l + t * (r + - l))%Qc /\ (l + t * (r + - l) <= hi)%Qc.
Proof.
  intros L1 L2 R1 R2 T0 T1.
  apply Qc_sub_nonneg in L1, L2, R1, R2, T1.
  split; apply (proj2 (Qcle_minus_iff _ _)).
  - replace (l + t * (r + - l) + - lo)%Qc
      with ((1 + - t) * (l + - lo) + t * (r + - lo))%Qc by ring.
    apply Qc_add_nonneg; apply Qc_mul_nonneg; assumption.
  - replace (hi + - (l + t * (r + - l)))%Qc
      with ((1 + - t) * (hi + - l) + t * (hi + - r))%Qc by ring.
    apply Qc_add_nonneg; apply Qc_mul_nonneg; assumption.
Qed.

Lemma read_between (lo hi : Qc) (z : list su2double) (k : Z) :
  entries_between lo hi z -> 0 <= k < Z.of_nat (length z) ->
  exists q : Qc, read z k = Some (Fin q) /\ (lo <= q)%Qc /\ (q <= hi)%Qc.
Proof.
  intros F H. destruct (read_in_bounds z k H) as (v & R & I).
  unfold entries_between in F. rewrite Forall_forall in F.
  destruct (F v I) as (q & -> & B). exists q. split; assumption.
Qed.


Lemma max_0_quot_div (n d : Z) : 0 < d -> Z.max 0 (Z.quot n d) = Z.max 0 (n / d).
Proof.
  intros Hd. destruct (Z_le_gt_dec 0 n) as [H|H].
  - rewrite Z.quot_div_nonneg by lia. reflexivity.
  - assert (Z.quot n d <= 0).
    { rewrite <- (Z.opp_involutive n), Z.quot_opp_l by lia.
      pose proof (Z.quot_pos (- n) d). lia. }
    assert (n / d < 0) by (apply Z.div_lt_upper_bound; lia).
    lia.
Qed.

(** X7: the cast rounds toward zero, not down, yet after the clamp
    this makes no difference: where the cast is defined, the left index
    is the floor of the fractional index clamped to [0, N-2]. *)
Theorem left_index_floor (ub : su2double -> Z) (q : Qc) (N : Z) :
  in_int (trunc q) = true ->
  left_index ub (Fin q) N = Z.min (Z.max 0 (Qfloor q)) (N - 2).
Proof.
  intros H. unfold left_index, GetValue, to_int. rewrite H.
  unfold trunc, Qfloor. destruct q as [[n d] Hc]. simpl.
  rewrite max_0_quot_div by lia. reflexivity.
Qed.

(** Equality of two reads that evaluate to the same finite value. *)
Ltac read_eq :=
  vm_compute; apply f_equal; apply f_equal; apply Qc_is_canon;
  vm_compute; reflexivity.

Ltac qc_le := unfold Qcle; vm_compute; discriminate.

(** The temperature table of [demo_table] is [300 + 5*i + 10*j]; the
    query lies right of and below the grid, at the fractional indices
    [(4, -9/2)]. *)
Lemma interpolateTable_bilinear_exact_witness :
  interpolateTable cast_indefinite demo_table (lit 5 1) (lit (-7) 2)
    (Rho demo_table) (De demo_table) (T_rhoDe demo_table)
  = Fin (bilinear_at (Q2Qc (300 # 1)) (Q2Qc (5 # 1)) (Q2Qc (10 # 1))
           (Q2Qc (0 # 1)) (Q2Qc (4 # 1)) (Q2Qc (-9 # 2))).
Proof.
  apply interpolateTable_bilinear_exact.
  - cbn. lia.
  - cbn. lia.
  - intros i j Hi Hj. cbn in Hi, Hj.
    assert (Ei : i = 0 \/ i = 1) by lia.
    assert (Ej : j = 0 \/ j = 1 \/ j = 2) by lia.
    destruct Ei as [-> | ->], Ej as [-> | [-> | ->]]; read_eq.
  - su2_eq.
  - su2_eq.
Defined.


(** The fractional index -7/2: the cast gives -3, the floor is -4, the
    left index is 0 either way. *)
Lemma left_index_floor_witness :
  left_index cast_indefinite (Fin (Q2Qc (-7 # 2))) 3
  = Z.min (Z.max 0 (Qfloor (Q2Qc (-7 # 2)))) (3 - 2).
Proof.
  apply (left_index_floor cast_indefinite (Q2Qc (-7 # 2)) 3). reflexivity.
Defined.

Lemma interpolateTable_not_finite_x
  (ub : su2double -> Z) (tab : TableData)
  (xi yi : su2double) (x y z : list su2double) :
  is_finite xi = false -> is_finite (interpolateTable ub tab xi yi x y z) = false.
Proof.
  intros H. unfold interpolateTable, interpolateTable_reads.
  assert (Hx : is_finite (frac_index xi x (Nx tab)) = false).
  { unfold frac_index. apply mul_not_finite_l, div_not_finite_l, sub_not_finite_l, H. }
  set (ix := frac_index xi x (Nx tab)) in *.
  destruct (read z _) as [zll|]; [|reflexivity].
  destruct (read z _) as [zlr|]; [|reflexivity].
  destruct (read z _) as [zrl|]; [|reflexivity].
  destruct (read z _) as [zrr|]; [|reflexivity].
  cbn [obind]. apply add_not_finite_r, mul_not_finite_l, sub_not_finite_l, Hx.
Qed.

(** ** The accessors, the inversions and the setters *)

Lemma rootFunc_zero_result (func : su2double -> su2double) :
  rootFunc (Fin 0%Qc) func = Fin 0%Qc.
Proof. destruct (rootFunc_at_zero func) as (k & _ & _ & H). exact H. Qed.

Section FurtherClassFacts.

Variable pow : su2double -> su2double -> su2double.
Variable ub : su2double -> Z.
Variable tab : TableData.

Lemma lookup_not_finite (rho e : su2double) (z : list su2double) :
  is_finite rho = false \/ is_finite e = false ->
  is_finite (interpolateTable ub tab rho (e - esat_rho pow tab rho)%D
               (Rho tab) (De tab) z) = false.
Proof.
  intros [H|H].
  - apply interpolateTable_not_finite_x, H.
  - apply interpolateTable_not_finite, sub_not_finite_l, H.
Qed.

(** X8: there is no validation of the arguments: when the density or
    the energy is not a finite number, each of the eleven accessors
    returns a value that is not finite, whatever the table holds. *)
Theorem accessors_not_finite (rho e : su2double) :
  is_finite rho = false \/ is_finite e = false ->
  is_finite (P_rhoe pow ub tab rho e) = false /\
  is_finite (T_rhoe pow ub tab rho e) = false /\
  is_finite (h_rhoe pow ub tab rho e) = false /\
  is_finite (s_rhoe pow ub tab rho e) = false /\
  is_finite (cv_rhoe pow ub tab rho e) = false /\
  is_finite (cp_rhoe pow ub tab rho e) = false /\
  is_finite (a2_rhoe pow ub tab rho e) = false /\
  is_finite (dPdrho_e_rhoe pow ub tab rho e) = false /\
  is_finite (dPde_rho_rhoe pow ub tab rho e) = false /\
  is_finite (dTdrho_e_rhoe pow ub tab rho e) = false /\
  is_finite (dTde_rho_rhoe pow ub tab rho e) = false.
Proof.
  intros H. repeat split; apply lookup_not_finite, H.
Qed.

(** X9: when the seed of the energy inversions,
    [esat_rho(rho) + De[0]], is 0, the three of them return 0 for every
    target value, and when [Rho[0]] is 0 so do the three density
    inversions. *)
Theorem inversions_zero_seed (rho : su2double) :
  ((esat_rho pow tab rho + elt (De tab) 0)%D = Fin 0%Qc ->
   forall t : su2double,
     e_rhoP pow ub tab rho t = Fin 0%Qc /\
     e_rhoT pow ub tab rho t = Fin 0%Qc /\
     e_rhoh pow ub tab rho t = Fin 0%Qc) /\
  (elt (Rho tab) 0 = Fin 0%Qc ->
   forall t u : su2double,
     rho_PT pow ub tab t u = Fin 0%Qc /\
     rho_Ps pow ub tab t u = Fin 0%Qc /\
     rho_hs pow ub tab t u = Fin 0%Qc).
Proof.
  split.
  - intros H t. unfold e_rhoP, e_rhoT, e_rhoh. cbv zeta. rewrite H.
    repeat split; apply rootFunc_zero_result.
  - intros H t u. unfold rho_PT, rho_Ps, rho_hs. cbv zeta. rewrite H.
    repeat split; apply rootFunc_zero_result.
Qed.

Lemma SetTDState_rhoe_consistent (rho e : su2double) (o : CTableFluid) :
  state_consistent pow ub tab (SetTDState_rhoe pow ub tab rho e o) /\
  Density (SetTDState_rhoe pow ub tab rho e o) = rho /\
  StaticEnergy (SetTDState_rhoe pow ub tab rho e o) = e /\
  ComputeEntropy (SetTDState_rhoe pow ub tab rho e o) = ComputeEntropy o.
Proof.
  unfold state_consistent, SetTDState_rhoe.
  destruct o as [flag d se p t s a dpr dpe dtr dte cv cp].
  destruct flag; cbn; repeat split; try reflexivity; discriminate.
Qed.

(** X10: each of the seven [SetTDState_*] setters leaves a state that
    agrees with the tables: pressure, temperature, squared speed of
    sound, the four derivatives and both specific heats are the
    accessors' values at the stored density and energy, and so is the
    entropy when the flag is set; the flag is kept.  The stored pair is
    the one the inversions return, so the stored pressure after
    [SetTDState_Prho(P, rho)] is [P_rhoe(rho, e_rhoP(rho, P))] and not
    the argument [P]. *)
Theorem SetTDState_consistent (a b : su2double) (o : CTableFluid) :
  let ok (o' : CTableFluid) :=
    state_consistent pow ub tab o' /\ ComputeEntropy o' = ComputeEntropy o in
  ok (SetTDState_rhoe pow ub tab a b o) /\
  ok (SetTDState_Prho pow ub tab a b o) /\
  ok (SetTDState_rhoT pow ub tab a b o) /\
  ok (SetTDState_rhoh pow ub tab a b o) /\
  ok (SetTDState_PT pow ub tab a b o) /\
  ok (SetTDState_Ps pow ub tab a b o) /\
  ok (SetTDState_hs pow ub tab a b o) /\
  Density (SetTDState_Prho pow ub tab a b o) = b /\
  StaticEnergy (SetTDState_Prho pow ub tab a b o) = e_rhoP pow ub tab b a /\
  Pressure (SetTDState_Prho pow ub tab a b o)
  = P_rhoe pow ub tab b (e_rhoP pow ub tab b a) /\
  Density (SetTDState_PT pow ub tab a b o) = rho_PT pow ub tab a b /\
  Density (SetTDState_Ps pow ub tab a b o) = rho_Ps pow ub tab a b /\
  Density (SetTDState_hs pow ub tab a b o) = rho_hs pow ub tab a b.
Proof.
  intros ok. unfold ok, SetTDState_PT, SetTDState_Ps, SetTDState_hs,
    SetTDState_Prho, SetTDState_rhoT, SetTDState_rhoh.
  assert (H := fun rho e => SetTDState_rhoe_consistent rho e o).
  repeat split; try apply H.
  destruct (H b (e_rhoP pow ub tab b a)) as ((HP & _) & HD & HE & _).
  rewrite HP, HD, HE. reflexivity.
Qed.

(** What [SetTDState_rhoe] leaves depends on the object it is applied
    to through the flag only, and through the entropy when the flag is
    clear. *)
Lemma SetTDState_rhoe_ext (rho e : su2double) (o1 o2 : CTableFluid) :
  ComputeEntropy o1 = ComputeEntropy o2 ->
  (ComputeEntropy o1 = false -> Entropy o1 = Entropy o2) ->
  SetTDState_rhoe pow ub tab rho e o1 = SetTDState_rhoe pow ub tab rho e o2.
Proof.
  unfold SetTDState_rhoe.
  destruct o1 as [f1 d1 se1 p1 t1 s1 a1 dpr1 dpe1 dtr1 dte1 cv1 cp1].
  destruct o2 as [f2 d2 se2 p2 t2 s2 a2 dpr2 dpe2 dtr2 dte2 cv2 cp2].
  cbn. intros <- Hs. destruct f1; cbn; [reflexivity|].
  rewrite (Hs eq_refl). reflexivity.
Qed.

Lemma SetTDState_rhoe_flag_entropy (rho e : su2double) (o : CTableFluid) :
  ComputeEntropy (SetTDState_rhoe pow ub tab rho e o) = ComputeEntropy o /\
  (ComputeEntropy o = false ->
   Entropy (SetTDState_rhoe pow ub tab rho e o) = Entropy o).
Proof.
  unfold SetTDState_rhoe.
  destruct o as [flag d se p t s a dpr dpe dtr dte cv cp].
  destruct flag; cbn; split; try reflexivity; discriminate.
Qed.

(** X11: a [SetTDState_*] call overwrites what earlier setters have
    left: applied after [SetTDState_rhoe], after [SetEnergy_Prho] or
    after another composite setter it gives the object it gives without
    the earlier call.  Of the earlier object only the flag matters, and
    the entropy when the flag is clear. *)
Theorem SetTDState_last_wins (rho e : su2double) (o : CTableFluid) :
  (forall o2 : CTableFluid,
     ComputeEntropy o = ComputeEntropy o2 ->
     (ComputeEntropy o = false -> Entropy o = Entropy o2) ->
     SetTDState_rhoe pow ub tab rho e o = SetTDState_rhoe pow ub tab rho e o2) /\
  (forall rho' e' : su2double,
     SetTDState_rhoe pow ub tab rho e (SetTDState_rhoe pow ub tab rho' e' o)
     = SetTDState_rhoe pow ub tab rho e o) /\
  (forall P r : su2double,
     SetTDState_rhoe pow ub tab rho e (SetEnergy_Prho pow ub tab P r o)
     = SetTDState_rhoe pow ub tab rho e o) /\
  (forall P T h s : su2double,
     SetTDState_PT pow ub tab P T (SetTDState_hs pow ub tab h s o)
     = SetTDState_PT pow ub tab P T o /\
     SetTDState_Prho pow ub tab P T (SetTDState_rhoT pow ub tab h s o)
     = SetTDState_Prho pow ub tab P T o /\
     SetTDState_rhoh pow ub tab P T (SetTDState_Ps pow ub tab h s o)
     = SetTDState_rhoh pow ub tab P T o).
Proof.
  assert (A : forall r1 e1 r2 e2,
            SetTDState_rhoe pow ub tab r1 e1 (SetTDState_rhoe pow ub tab r2 e2 o)
            = SetTDState_rhoe pow ub tab r1 e1 o).
  { intros r1 e1 r2 e2.
    destruct (SetTDState_rhoe_flag_entropy r2 e2 o) as (F & S).
    apply SetTDState_rhoe_ext; [exact F|]. intros H. apply S. congruence. }
  split; [intros o2; apply SetTDState_rhoe_ext|].
  split; [intros rho' e'; apply A|].
  split.
  - intros P r. apply SetTDState_rhoe_ext; [reflexivity|].
    intros _. reflexivity.
  - intros P T h s.
    unfold SetTDState_PT, SetTDState_hs, SetTDState_Prho, SetTDState_rhoT,
      SetTDState_rhoh, SetTDState_Ps, SetTDState_Prho.
    repeat split; apply A.
Qed.

End FurtherClassFacts.

(** An infinite energy on [demo_table]. *)
Lemma accessors_not_finite_witness :
  is_finite (P_rhoe pow_base_one cast_indefinite demo_table (lit 1 1) PInf) = false.
Proof.
  apply (proj1 (accessors_not_finite pow_base_one cast_indefinite demo_table
                  (lit 1 1) PInf (or_intror eq_refl))).
Defined.

(** The density 1 of [rising_table], where the seed is 0: the
    temperature 310 is tabulated at the energy 1, the inversion
    returns 0. *)
Lemma inversions_zero_seed_witness :
  e_rhoT pow_base_one cast_indefinite rising_table (lit 1 1) (lit 310 1)
  = Fin 0%Qc.
Proof.
  refine (proj1 (proj2 (proj1
    (inversions_zero_seed pow_base_one cast_indefinite rising_table (lit 1 1))
    _ (lit 310 1)))).
  su2_eq.
Defined.

(** ** A round with two equal residuals *)



(** ** The lookup on a grid line *)

(** X13: at the density of the [i]-th grid node and any energy
    coordinate with a finite fractional index [qy], the lookup is the
    linear blend, along the energy axis, of the two entries of row [i]
    around [qy]; the neighbouring rows do not enter, so the lookup is
    continuous across the cell borders of the density axis. *)
Theorem interpolateTable_on_grid_line
  (ub : su2double -> Z) (tab : TableData)
  (x0 x1 : Qc) (yi : su2double) (y z : list su2double) (i : Z) (qy : Qc) :
  2 <= Nx tab -> 2 <= Ny tab -> Nx tab * Ny tab <= INT_MAX ->
  x0 <> x1 ->
  Z.of_nat (length z) = Nx tab * Ny tab ->
  Forall (fun v => is_finite v = true) z ->
  0 <= i <= Nx tab - 1 ->
  frac_index yi y (Ny tab) = Fin qy ->
  let m := left_index ub (Fin qy) (Ny tab) in
  exists zl zr : Qc,
    read z (i * Ny tab + m) = Some (Fin zl) /\
    read z (i * Ny tab + (m + 1)) = Some (Fin zr) /\
    interpolateTable ub tab (node_coord [Fin x0; Fin x1] (Nx tab) i) yi
      [Fin x0; Fin x1] y z
    = Fin (zl + (qy + - of_Z m) * (zr + - zl))%Qc.
Proof.
  intros HNx HNy Hmax Hx Hlen Hfin Hi Hy m.
  assert (Ex : frac_index (node_coord [Fin x0; Fin x1] (Nx tab) i)
                 [Fin x0; Fin x1] (Nx tab) = of_int i)
    by (apply frac_index_node; assumption).
  destruct (left_index_node ub (Nx tab) i HNx ltac:(nia) Hi)
    as (l & t & Lx & Bx & Ix & Tx).
  assert (Bm : 0 <= m <= Ny tab - 2) by (apply left_index_bounds; exact HNy).
  assert (Hk : forall a b, 0 <= a <= Nx tab - 1 -> 0 <= b <= Ny tab - 1 ->
                 0 <= a * Ny tab + b < Z.of_nat (length z)) by (intros; nia).
  destruct (read_finite z (l * Ny tab + m) Hfin) as (zll & R1); [apply Hk; lia|].
  destruct (read_finite z (l * Ny tab + (m + 1)) Hfin) as (zlr & R2); [apply Hk; lia|].
  destruct (read_finite z ((l + 1) * Ny tab + m) Hfin) as (zrl & R3); [apply Hk; lia|].
  destruct (read_finite z ((l + 1) * Ny tab + (m + 1)) Hfin) as (zrr & R4); [apply Hk; lia|].
  unfold interpolateTable, interpolateTable_reads.
  rewrite Ex, Hy, Lx. fold m. rewrite R1, R2, R3, R4. cbn [obind].
  change (Fin zll + (Fin qy - of_int m) * (Fin zlr - Fin zll))%D
    with (Fin (zll + (qy + - of_Z m) * (zlr + - zll))%Qc).
  change (Fin zrl + (Fin qy - of_int m) * (Fin zrr - Fin zrl))%D
    with (Fin (zrl + (qy + - of_Z m) * (zrr + - zrl))%Qc).
  destruct Tx as [[-> ->]|[-> ->]]; subst i.
  - exists zll, zlr. rewrite Z.add_0_r. rewrite blend_0. auto.
  - exists zrl, zrr. rewrite blend_1. auto.
Qed.

(** The density 1 of [demo_table] and the energy coordinate 3/2, a
    quarter of the way from the first to the second node. *)
Lemma interpolateTable_on_grid_line_witness :
  exists zl zr : Qc,
    read (P_rhoDe demo_table) (0 * Ny demo_table + 0) = Some (Fin zl) /\
    read (P_rhoDe demo_table) (0 * Ny demo_table + (0 + 1)) = Some (Fin zr) /\
    interpolateTable cast_indefinite demo_table
      (node_coord (Rho demo_table) (Nx demo_table) 0) (lit 3 2)
      (Rho demo_table) (De demo_table) (P_rhoDe demo_table)
    = Fin (zl + (Q2Qc (1 # 2) + - of_Z 0) * (zr + - zl))%Qc.
Proof.
  apply (interpolateTable_on_grid_line cast_indefinite demo_table
           (Q2Qc (1 # 1)) (Q2Qc (2 # 1)) (lit 3 2) (De demo_table)
           (P_rhoDe demo_table) 0 (Q2Qc (1 # 2))).
  - cbn. lia.
  - cbn. lia.
  - cbn. unfold INT_MAX. lia.
  - intros E. apply Q2Qc_eq_iff in E. discriminate E.
  - reflexivity.
  - repeat constructor.
  - cbn. lia.
  - su2_eq.
Defined.

(** After [SetTDState_rhoe(1, 3.5)] the state of [demo_table] agrees
    with the tables, with the pressure 5; [SetEnergy_Prho(2, 1)] then
    stores the energy 2.5 and leaves the pressure 5, while the table
    gives the pressure 2 at that energy. *)
Example SetEnergy_Prho_stale_pressure :
  let o := SetTDState_rhoe pow_base_one cast_indefinite demo_table
             (lit 1 1) (lit 7 2) (demo_object false) in
  let o' := SetEnergy_Prho pow_base_one cast_indefinite demo_table
              (lit 2 1) (lit 1 1) o in
  eqb (StaticEnergy o') (lit 5 2) = true /\
  eqb (Pressure o') (lit 5 1) = true /\
  eqb (P_rhoe pow_base_one cast_indefinite demo_table
         (Density o') (StaticEnergy o')) (lit 2 1) = true.
Proof. vm_compute. repeat split; reflexivity. Qed.
